(** * The Swiss locator filter: search query, result parsing, group labels

    A shallow embedding of [swiss_locator/swiss_locator_filter.py].

    Python strings are modelled as Rocq strings whose characters are the
    code points U+0000 .. U+00FF; integers as [Z]; floats as binary64
    numbers with round-to-nearest-even written out; exceptions as the
    error side of a result type; the filter instance, the log and the
    emitted locator results as an explicit state. *)

From Stdlib Require Import ZArith QArith Qabs Bool List Ascii String Lia.
From Stdlib Require Floats.
Import ListNotations.

Local Open Scope string_scope.
Local Open Scope list_scope.
Local Open Scope Z_scope.

(* ------------------------------------------------------------------ *)
(** * Characters and the classes used by the patterns *)

Module Chars.

Definition code (c : ascii) : N := N_of_ascii c.

Definition in_range (lo hi : N) (c : ascii) : bool :=
  (N.leb lo (code c) && N.leb (code c) hi)%bool.

(** [\d] on text: the decimal digits; below U+0100 these are 0-9. *)
Definition is_digit (c : ascii) : bool := in_range 48 57 c.

(** [[a-z]] and [[A-Z]]. *)
Definition is_lower (c : ascii) : bool := in_range 97 122 c.
Definition is_upper (c : ascii) : bool := in_range 65 90 c.

(** The alphanumeric code points of U+0080 .. U+00FF: the letters, the
    ordinal indicators, micro, the superscript digits and the fractions. *)
Definition is_latin1_alnum (c : ascii) : bool :=
  let n := code c in
  (N.eqb n 170 || N.eqb n 178 || N.eqb n 179 || N.eqb n 181 || N.eqb n 185
   || N.eqb n 186 || in_range 188 190 c || in_range 192 214 c
   || in_range 216 246 c || in_range 248 255 c)%bool.

(** [\w] on text: alphanumeric or underscore. *)
Definition is_word (c : ascii) : bool :=
  (is_digit c || is_upper c || is_lower c || N.eqb (code c) 95
   || is_latin1_alnum c)%bool.

(** [.] without DOTALL: anything but a line feed. *)
Definition is_dot (c : ascii) : bool := negb (N.eqb (code c) 10).

Definition is_char (x c : ascii) : bool := Ascii.eqb x c.

Definition word_opt (o : option ascii) : bool :=
  match o with Some c => is_word c | None => false end.


End Chars.
Import Chars.

Arguments is_digit c : simpl never.
Arguments is_word c : simpl never.
Arguments is_char x c : simpl never.
Arguments is_dot c : simpl never.
Arguments is_lower c : simpl never.
Arguments is_upper c : simpl never.

(* ------------------------------------------------------------------ *)
(** * The fragment of [re] the filter uses

    A backtracking matcher in continuation-passing style.  A position in
    the subject is the character before it (if any) and the text after
    it.  Alternatives are tried in the order [re] tries them, so the first
    success is the match [re] reports. *)

Module Re.

Inductive regex : Type :=
| Class (p : ascii -> bool)      (* one character of a class *)
| Cat (r1 r2 : regex)            (* r1 r2 *)
| Or (r1 r2 : regex)             (* r1|r2, left first *)
| Maybe (r : regex)              (* (?:r)?, greedy *)
| Many1 (p : ascii -> bool)      (* [p]+, greedy *)
| Few1 (p : ascii -> bool)       (* [p]+?, lazy *)
| Bound                          (* \b *)
| Start                          (* ^ *)
| Finish                         (* $ *)
| Behind (p : ascii -> bool)     (* (?<=[p]) *)
| Ahead (r : regex).             (* (?=r) *)

Definition pos : Type := (option ascii * list ascii)%type.

Definition next_char (rest : list ascii) : option ascii :=
  match rest with c :: _ => Some c | [] => None end.

(** Longest run first, then one character less, and so on. *)
Fixpoint greedy_plus {A} (p : ascii -> bool) (k : pos -> option A)
    (rest : list ascii) : option A :=
  match rest with
  | [] => None
  | c :: rest' =>
      if p c then
        match greedy_plus p k rest' with
        | Some out => Some out
        | None => k (Some c, rest')
        end
      else None
  end.

(** Shortest run first, then one character more, and so on. *)
Fixpoint lazy_plus {A} (p : ascii -> bool) (k : pos -> option A)
    (rest : list ascii) : option A :=
  match rest with
  | [] => None
  | c :: rest' =>
      if p c then
        match k (Some c, rest') with
        | Some out => Some out
        | None => lazy_plus p k rest'
        end
      else None
  end.

Definition at_boundary (x : pos) : bool :=
  xorb (word_opt (fst x)) (word_opt (next_char (snd x))).

(** [$] holds at the end of the text and before a final line feed. *)
Definition at_finish (rest : list ascii) : bool :=
  match rest with
  | [] => true
  | [c] => N.eqb (code c) 10
  | _ => false
  end.

Fixpoint run {A} (r : regex) (k : pos -> option A) (x : pos) : option A :=
  match r with
  | Class p =>
      match snd x with
      | c :: rest' => if p c then k (Some c, rest') else None
      | [] => None
      end
  | Cat r1 r2 => run r1 (run r2 k) x
  | Or r1 r2 =>
      match run r1 k x with
      | Some out => Some out
      | None => run r2 k x
      end
  | Maybe r1 =>
      match run r1 k x with
      | Some out => Some out
      | None => k x
      end
  | Many1 p => greedy_plus p k (snd x)
  | Few1 p => lazy_plus p k (snd x)
  | Bound => if at_boundary x then k x else None
  | Start => match fst x with None => k x | Some _ => None end
  | Finish => if at_finish (snd x) then k x else None
  | Behind p =>
      match fst x with
      | Some c => if p c then k x else None
      | None => None
      end
  | Ahead r1 =>
      match run r1 (fun y => Some y) x with
      | Some _ => k x
      | None => None
      end
  end.

(** The match starting at a position: the matched text, when there is
    one.  What is left of the subject is a suffix of [rest], so the text
    is the part of [rest] in front of it. *)
Definition match_at (r : regex) (prev : option ascii) (rest : list ascii)
    : option (list ascii) :=
  match run r (fun y => Some (snd y)) (prev, rest) with
  | Some rest' => Some (firstn (List.length rest - List.length rest') rest)
  | None => None
  end.

(** One pass over the subject, as [finditer] makes it: the characters
    outside any match and the matches, in order.  [skip] counts the
    characters of the current match still to step over.  After an empty
    match the scan moves on by one character (no pattern of this program
    matches the empty text). *)
Inductive piece : Type :=
| Lit (c : ascii)
| Hit (text : list ascii).

Fixpoint scan (r : regex) (skip : nat) (prev : option ascii)
    (rest : list ascii) {struct rest} : list piece :=
  match skip with
  | S n =>
      match rest with
      | c :: rest' => scan r n (Some c) rest'
      | [] => []
      end
  | O =>
      match match_at r prev rest with
      | Some text =>
          Hit text ::
          match rest with
          | c :: rest' =>
              match text with
              | [] => Lit c :: scan r 0 (Some c) rest'
              | _ :: t => scan r (List.length t) (Some c) rest'
              end
          | [] => []
          end
      | None =>
          match rest with
          | c :: rest' => Lit c :: scan r 0 (Some c) rest'
          | [] => []
          end
      end
  end.

Fixpoint hits (ps : list piece) : list string :=
  match ps with
  | [] => []
  | Lit _ :: ps' => hits ps'
  | Hit t :: ps' => string_of_list_ascii t :: hits ps'
  end.

(** [re.findall] for a pattern whose only group spans the whole match, and
    the texts of [re.finditer]. *)
Definition findall (r : regex) (s : string) : list string :=
  hits (scan r 0 None (list_ascii_of_string s)).

(** [re.sub(r, repl, s)]. *)
Fixpoint replace_hits (repl : list ascii) (ps : list piece) : list ascii :=
  match ps with
  | [] => []
  | Lit c :: ps' => c :: replace_hits repl ps'
  | Hit _ :: ps' => repl ++ replace_hits repl ps'
  end.

Definition sub (r : regex) (repl s : string) : string :=
  string_of_list_ascii
    (replace_hits (list_ascii_of_string repl)
       (scan r 0 None (list_ascii_of_string s))).

End Re.
Import Re.

(** [r'\b(\d+(?:\.\d+)?)\b'] *)
Definition box_pattern : regex :=
  Cat Bound
    (Cat (Cat (Many1 is_digit) (Maybe (Cat (Class (is_char ".")) (Many1 is_digit))))
       Bound).

(** [\d+(\.\d+)?], the pattern without the word boundaries. *)
Definition plain_pattern : regex :=
  Cat (Many1 is_digit) (Maybe (Cat (Class (is_char ".")) (Many1 is_digit))).

(** ['^\d+'] *)
Definition leading_digits_pattern : regex := Cat Start (Many1 is_digit).

(** ['.+?(?:(?<=[a-z])(?=[A-Z])|(?<=[A-Z])(?=[A-Z][a-z])|$)'] *)
Definition camelcase_pattern : regex :=
  Cat (Few1 is_dot)
    (Or (Cat (Behind is_lower) (Ahead (Class is_upper)))
       (Or (Cat (Behind is_upper) (Ahead (Cat (Class is_upper) (Class is_lower))))
          Finish)).

(* ------------------------------------------------------------------ *)
(** * Exceptions *)

Inductive exn : Type :=
| InvalidBox (msg : string)
| NameError (msg : string)
| ValueError (msg : string)
| OverflowError.

Inductive result (A : Type) : Type :=
| Ok (a : A)
| Raise (e : exn).
Arguments Ok {A} a.
Arguments Raise {A} e.

(* ------------------------------------------------------------------ *)
(** * Floats

    A Python float is an IEEE 754 binary64 number.  A finite non-zero one
    is kept as sign, significand and exponent of the last place, the value
    being [m * 2^e] with [m < 2^53] and [-1074 <= e <= 971], and with
    [2^52 <= m] unless [e = -1074], which is how [round] returns it. *)

Module Float.

Inductive binary64 : Type :=
| Zero (neg : bool)
| Finite (neg : bool) (m : Z) (e : Z)
| Inf (neg : bool)
| NaN.

Definition e_min : Z := -1074.
Definition e_max : Z := 971.

(** The fraction [n / d] scaled by [2^(-e)], as a fraction. *)
Definition scaled (n d e : Z) : Z * Z :=
  if 0 <=? e then (n, d * 2 ^ e) else (n * 2 ^ (- e), d).

(** Nearest integer to [n / d], ties to even. *)
Definition nearest_even (n d : Z) : Z :=
  let q := n / d in
  let r := n mod d in
  if 2 * r <? d then q
  else if d <? 2 * r then q + 1
  else if Z.even q then q else q + 1.

(** The binary64 number nearest to [(-1)^neg * n / d], for [0 < n] and
    [0 < d]: overflow gives an infinity, underflow a zero. *)
Definition round (neg : bool) (n d : Z) : binary64 :=
  let e1 := Z.log2 n - Z.log2 d - 52 in
  let '(n1, d1) := scaled n d e1 in
  let e2 := if n1 <? d1 * 2 ^ 52 then e1 - 1 else e1 in
  let e := Z.max e2 e_min in
  let '(n2, d2) := scaled n d e in
  let m := nearest_even n2 d2 in
  let '(m', e') := if m =? 2 ^ 53 then (2 ^ 52, e + 1) else (m, e) in
  if m' =? 0 then Zero neg
  else if e_max <? e' then Inf neg
  else Finite neg m' e'.

(** The exact value of a finite float. *)
Definition to_Q (x : binary64) : option Q :=
  match x with
  | Zero _ => Some 0%Q
  | Finite neg m e =>
      let v := if 0 <=? e then inject_Z (m * 2 ^ e)
               else Qmake m (Z.to_pos (2 ^ (- e))) in
      Some (if neg then Qopp v else v)
  | Inf _ | NaN => None
  end.

(** A finite float as an integer times a power of two. *)
Definition signed (neg : bool) (m : Z) : Z := if neg then - m else m.

Definition fneg (x : binary64) : binary64 :=
  match x with
  | Zero a => Zero (negb a)
  | Finite a m e => Finite (negb a) m e
  | Inf a => Inf (negb a)
  | NaN => NaN
  end.

(** [x + y] on floats. *)
Definition fadd (x y : binary64) : binary64 :=
  match x, y with
  | NaN, _ | _, NaN => NaN
  | Inf a, Inf b => if Bool.eqb a b then Inf a else NaN
  | Inf a, _ => Inf a
  | _, Inf b => Inf b
  | Zero a, Zero b => Zero (a && b)
  | Zero _, Finite _ _ _ => y
  | Finite _ _ _, Zero _ => x
  | Finite a m e, Finite b n f =>
      let g := Z.min e f in
      let s := signed a m * 2 ^ (e - g) + signed b n * 2 ^ (f - g) in
      if s =? 0 then Zero false
      else if 0 <=? g then round (s <? 0) (Z.abs s * 2 ^ g) 1
      else round (s <? 0) (Z.abs s) (2 ^ (- g))
  end.

(** [x - y] on floats. *)
Definition fsub (x y : binary64) : binary64 := fadd x (fneg y).

(** [float(i)] for an integer, and the conversion of the integer operand
    of a mixed operation. *)
Definition of_int (i : Z) : result binary64 :=
  if i =? 0 then Ok (Zero false)
  else match round (i <? 0) (Z.abs i) 1 with
       | Inf _ => Raise OverflowError
       | x => Ok x
       end.

(** [a / b] on integers, [b] positive: the quotient rounded once. *)
Definition int_truediv (a b : Z) : result binary64 :=
  if a =? 0 then Ok (Zero false)
  else match round (a <? 0) (Z.abs a) b with
       | Inf _ => Raise OverflowError
       | x => Ok x
       end.

(** The value of a run of decimal digits, most significant first. *)
Definition digit_value (c : ascii) : Z := Z.of_N (code c) - 48.

Definition digits_value (ds : list ascii) : Z :=
  fold_left (fun acc c => 10 * acc + digit_value c) ds 0.

(** [float(s)] for the texts the filter passes to it, [digits] and
    [digits.digits]; on any other text, [ValueError] (the further
    spellings [float] accepts never reach it, see [coords_decimal]). *)
Definition all_digits (ds : list ascii) : bool :=
  (negb (Nat.eqb (List.length ds) 0) && forallb is_digit ds)%bool.

Fixpoint split_dot (s : list ascii) : list ascii * option (list ascii) :=
  match s with
  | [] => ([], None)
  | c :: s' =>
      if is_char "." c then ([], Some s')
      else let '(a, b) := split_dot s' in (c :: a, b)
  end.

Definition of_fraction (n d : Z) : binary64 :=
  if n =? 0 then Zero false else round false n d.

Definition of_string (s : string) : result binary64 :=
  match split_dot (list_ascii_of_string s) with
  | (ip, None) =>
      if all_digits ip then Ok (of_fraction (digits_value ip) 1)
      else Raise (ValueError s)
  | (ip, Some fp) =>
      if (all_digits ip && all_digits fp)%bool
      then Ok (of_fraction (digits_value (ip ++ fp))
                 (10 ^ Z.of_nat (List.length fp)))
      else Raise (ValueError s)
  end.

End Float.
Import Float.

(** [rank2priority]: [float(-rank / 7 + 1)]. *)
Definition rank2priority (rank : Z) : result binary64 :=
  match int_truediv (- rank) 7 with
  | Raise e => Raise e
  | Ok q =>
      match of_int 1 with
      | Raise e => Raise e
      | Ok one => Ok (fadd q one)
      end
  end.

(* ------------------------------------------------------------------ *)
(** * Results with exceptions *)

Definition bind {A B} (m : result A) (k : A -> result B) : result B :=
  match m with
  | Ok a => k a
  | Raise e => Raise e
  end.

Notation "x <- m ;; k" := (bind m (fun x => k))
  (at level 61, m at next level, right associativity).

(* ------------------------------------------------------------------ *)
(** * Module constants *)

Definition AVAILABLE_CRS : list string := ["2056"; "21781"].

Definition AVAILABLE_LANGUAGES : list (string * string) :=
  [("German", "de"); ("SwissGerman", "de"); ("French", "fr");
   ("Italian", "it"); ("Romansh", "rm"); ("English", "en")].

Definition USER_AGENT : string :=
  "Mozilla/5.0 QGIS Swiss MapGeoAdmin Locator Filter".

Fixpoint lookup (key : string) (d : list (string * string)) : option string :=
  match d with
  | [] => None
  | (k, v) :: d' => if String.eqb key k then Some v else lookup key d'
  end.

(* ------------------------------------------------------------------ *)
(** * Toolkit values the filter builds

    [QgsRectangle], [QUrl], [QUrlQuery] and [QgsLocatorResult] belong to
    the host toolkit.  A value is modelled by what the filter puts into
    it: the four arguments of the rectangle's constructor, the address
    and the query items of a URL, the fields set on a locator result.
    [QUrlQuery.addQueryItem] takes its key and its value as
    percent-encoded texts and keeps them in the form it recodes them to;
    that recoding is the toolkit's and is a parameter, [recode]. *)

Record QgsRectangle : Type := mkRect {
  xMinimum : binary64;
  yMinimum : binary64;
  xMaximum : binary64;
  yMaximum : binary64
}.

Record QUrl : Type := mkUrl {
  address : string;
  queryItems : list (string * string)
}.

Record QgsLocatorResult : Type := mkResult {
  displayString : string;
  group : string;
  userData : QgsRectangle
}.

(** [QUrl(url)] for a text without query and fragment, as the one of
    [fetchResults]; [QUrlQuery(url)] is the list of its query items. *)
Definition QUrl_of_string (url : string) : QUrl := mkUrl url [].

Definition addQueryItem (recode : string -> string)
    (q : list (string * string)) (key value : string)
    : list (string * string) :=
  q ++ [(recode key, recode value)].

Definition setQuery (u : QUrl) (q : list (string * string)) : QUrl :=
  mkUrl (address u) q.

(** [url.url()]: the address, then the items as [key=value] joined by
    [&], each key and value in the toolkit's percent encoding [enc]. *)
Definition QUrl_url (enc : string -> string) (u : QUrl) : string :=
  match queryItems u with
  | [] => address u
  | items =>
      (address u ++ "?" ++
       String.concat "&"
         (map (fun kv => enc (fst kv) ++ "=" ++ enc (snd kv)) items))%string
  end.

(* ------------------------------------------------------------------ *)
(** * The pure methods of [SwissLocatorFilter] *)

(** [box2geometry]. *)
Definition box2geometry (box : string) : result QgsRectangle :=
  let coords := findall box_pattern box in
  if negb (Nat.eqb (List.length coords) 4)
  then Raise (InvalidBox ("Could not parse: " ++ box)%string)
  else
    x0 <- of_string (nth 0 coords "") ;;
    y0 <- of_string (nth 1 coords "") ;;
    x1 <- of_string (nth 2 coords "") ;;
    y1 <- of_string (nth 3 coords "") ;;
    Ok (mkRect x0 y0 x1 y1).

(** [url_with_param]: the items of [params] are added in the order of
    the dictionary.  The method returns [url.url()], the text of the URL;
    the model keeps the URL itself, whose text is [QUrl_url]. *)
Definition url_with_param (recode : string -> string) (url : string)
    (params : list (string * string)) : QUrl :=
  let u := QUrl_of_string url in
  let q := fold_left (fun q kv => addQueryItem recode q (fst kv) (snd kv))
             params (queryItems u) in
  setQuery u q.

(** [break_camelcase]. *)
Definition break_camelcase (identifier : string) : string :=
  String.concat " " (findall camelcase_pattern identifier).

(** [s.replace(old, new)] for one-character [old] and [new]. *)
Fixpoint replace_char (old new : ascii) (s : string) : string :=
  match s with
  | EmptyString => EmptyString
  | String c s' =>
      String (if Ascii.eqb c old then new else c) (replace_char old new s')
  end.

(* ------------------------------------------------------------------ *)
(** * The filter instance and its surroundings *)

(** The values [self.settings.value] returns for the keys the filter
    reads. *)
Record Settings : Type := mkSettings {
  setting_lang : string;
  setting_crs : string;
  remove_leading_digits : bool;
  replace_underscore : bool;
  setting_break_camelcase : bool
}.

(** One element of [data['results']]: its [attrs]. *)
Record attrs : Type := mkAttrs {
  label : string;
  detail : string;
  rank : Z;
  origin : string;
  geom_st_box2d : string
}.

(** What [nam.request(..., blocking=True)] comes back with: a response
    with its status code and decoded body, or one of the two exceptions
    of the network module. *)
Inductive outcome : Type :=
| Response (status_code : Z) (results : list attrs)
| RequestsExceptionUserAbort
| RequestsException (err : string).

(** Messages handed to [info], by the format they are built with. *)
Inductive message : Type :=
| MsgStart
| MsgUrl (url : QUrl)
| MsgStatus (status_code : Z)
| MsgRequestsException (err : string)
| MsgKeys
| MsgLabel (l : string)
| MsgDetail (d : string)
| MsgPriority (priority : binary64) (rank : Z)
| MsgCategory (category origin : string)
| MsgBbox (box : string).

(** A request of a [NetworkAccessManager]: its URL and headers. *)
Record request : Type := mkRequest {
  request_url : QUrl;
  request_headers : list (string * string)
}.

(** The instance and what it acts on: [self.reply], [self.lang], the
    requests in flight (by number), the results emitted through
    [resultFetched], and the message log. *)
Record state : Type := mkState {
  reply : option nat;
  lang : string;
  in_flight : list (nat * request);
  issued : nat;
  aborted : list nat;
  emitted : list QgsLocatorResult;
  log : list message
}.

Definition with_log (m : message) (w : state) : state :=
  mkState (reply w) (lang w) (in_flight w) (issued w) (aborted w)
    (emitted w) (log w ++ [m]).

Definition with_emitted (r : QgsLocatorResult) (w : state) : state :=
  mkState (reply w) (lang w) (in_flight w) (issued w) (aborted w)
    (emitted w ++ [r]) (log w).

Definition remove_request (id : nat) (l : list (nat * request))
    : list (nat * request) :=
  filter (fun ir => negb (Nat.eqb (fst ir) id)) l.

Definition is_running (id : nat) (w : state) : bool :=
  existsb (fun ir => Nat.eqb (fst ir) id) (in_flight w).

(** [self.reply.abort()]. *)
Definition abort (id : nat) (w : state) : state :=
  mkState (reply w) (lang w) (remove_request id (in_flight w)) (issued w)
    (aborted w ++ [id]) (emitted w) (log w).

(** A new [NetworkAccessManager] sending its request. *)
Definition send (r : request) (w : state) : state :=
  mkState (reply w) (lang w) (in_flight w ++ [(issued w, r)]) (S (issued w))
    (aborted w) (emitted w) (log w).

Definition finished (id : nat) (w : state) : state :=
  mkState (reply w) (lang w) (remove_request id (in_flight w)) (issued w)
    (aborted w) (emitted w) (log w).

Section Filter.

(** The toolkit's recoding of a query key or value, [self.tr], the
    module's [DEBUG] flag and the settings. *)
Variable recode : string -> string.
Variable tr : string -> string.
Variable DEBUG : bool.
Variable settings : Settings.

(** [__init__]: the language of the instance; [self.reply] starts as
    [None]. *)
Definition init_lang (locale_lang : string) : string :=
  if String.eqb (setting_lang settings) "" then
    match lookup locale_lang AVAILABLE_LANGUAGES with
    | Some l => l
    | None => "en"
    end
  else setting_lang settings.

Definition init (locale_lang : string) : state :=
  mkState None (init_lang locale_lang) [] 0 [] [] [].

(** [translate_group]. *)
Definition translate_group (group : string) : result string :=
  if String.eqb group "zipcode" then Ok (tr "ZIP code")
  else if String.eqb group "gg25" then Ok (tr "Municipal boundaries")
  else if String.eqb group "district" then Ok (tr "District")
  else if String.eqb group "kantone" then Ok (tr "Cantons")
  else if String.eqb group "gazetteer" then Ok (tr "Index")
  else if String.eqb group "address" then Ok (tr "Address")
  else if String.eqb group "parcel" then Ok (tr "Parcel")
  else Raise (NameError
                ("Could not find group " ++ group ++ " in dictionary")%string).

(** [beautify_group]. *)
Definition beautify_group (group : string) : string :=
  let group :=
    if remove_leading_digits settings
    then sub leading_digits_pattern "" group else group in
  let group :=
    if replace_underscore settings
    then replace_char "_" " " group else group in
  if setting_break_camelcase settings then break_camelcase group else group.

(** [info] and [dbg_info]. *)
Definition info (m : message) (w : state) : state := with_log m w.

Definition dbg_info (m : message) (w : state) : state :=
  if DEBUG then info m w else w.

(** The body of the loop of [handle_response] for one element.  The
    arguments of the debug messages are evaluated whether or not [DEBUG]
    is set. *)
Definition handle_loc (loc : attrs) (w : state) : result unit * state :=
  let w := dbg_info MsgKeys w in
  let w := dbg_info (MsgLabel (label loc)) w in
  let w := dbg_info (MsgDetail (detail loc)) w in
  match rank2priority (rank loc) with
  | Raise e => (Raise e, w)
  | Ok p =>
      let w := dbg_info (MsgPriority p (rank loc)) w in
      match translate_group (origin loc) with
      | Raise e => (Raise e, w)
      | Ok c =>
          let w := dbg_info (MsgCategory c (origin loc)) w in
          let w := dbg_info (MsgBbox (geom_st_box2d loc)) w in
          match translate_group (origin loc) with
          | Raise e => (Raise e, w)
          | Ok g =>
              match box2geometry (geom_st_box2d loc) with
              | Raise e => (Raise e, w)
              | Ok rect =>
                  (Ok tt, with_emitted (mkResult (label loc) g rect) w)
              end
          end
      end
  end.

Fixpoint handle_results (locs : list attrs) (w : state)
    : result unit * state :=
  match locs with
  | [] => (Ok tt, w)
  | loc :: locs' =>
      match handle_loc loc w with
      | (Ok _, w') => handle_results locs' w'
      | (Raise e, w') => (Raise e, w')
      end
  end.

(** [handle_response]. *)
Definition handle_response (status_code : Z) (results : list attrs)
    (w : state) : result unit * state :=
  if negb (status_code =? 200) then (Ok tt, info (MsgStatus status_code) w)
  else handle_results results w.

(** The URL and headers [fetchResults] builds. *)
Definition search_url (lang search : string) : QUrl :=
  let url := "https://api3.geo.admin.ch/rest/services/api/SearchServer" in
  let params :=
    [("type", "locations");
     ("searchText", search);
     ("returnGeometry", "true");
     ("lang", lang);
     ("sr", setting_crs settings)] in
  url_with_param recode url params.

Definition search_headers : list (string * string) :=
  [("User-Agent", USER_AGENT)].

(** [fetchResults] up to the moment its request is out: [None] when it
    returned before, the request and its number otherwise. *)
Definition fetch_begin (search : string) (w : state)
    : option (nat * request) * state :=
  let w := dbg_info MsgStart w in
  if (String.length search <? 2)%nat then (None, w)
  else
    let w :=
      match reply w with
      | Some id => if is_running id w then abort id w else w
      | None => w
      end in
    let url := search_url (lang w) search in
    let w := dbg_info (MsgUrl url) w in
    let r := mkRequest url search_headers in
    (Some (issued w, r), send r w).

(** [fetchResults] from the return of [nam.request] on. *)
Definition fetch_end (id : nat) (o : outcome) (w : state)
    : result unit * state :=
  let w := finished id w in
  match o with
  | Response status_code results => handle_response status_code results w
  | RequestsExceptionUserAbort => (Ok tt, w)
  | RequestsException err => (Ok tt, info (MsgRequestsException err) w)
  end.

(** [fetchResults], the request being answered by [net]. *)
Definition fetchResults (net : request -> outcome) (search : string)
    (w : state) : result unit * state :=
  match fetch_begin search w with
  | (None, w') => (Ok tt, w')
  | (Some (id, r), w') => fetch_end id (net r) w'
  end.

(** Calls of [fetchResults] on one instance that overlap: a call may
    begin while the requests of earlier calls are still out. *)
Inductive event : Type :=
| Begin (search : string)
| Return (id : nat) (o : outcome).

Definition step (ev : event) (w : state) : state :=
  match ev with
  | Begin search => snd (fetch_begin search w)
  | Return id o => snd (fetch_end id o w)
  end.

Definition steps (evs : list event) (w : state) : state :=
  fold_left (fun w ev => step ev w) evs w.

End Filter.

(* ------------------------------------------------------------------ *)
(** * Terms of the statements

    The tables, sample values and reference functions the theorems are
    stated with. *)

(** The origin keys and the labels of [translate_group], in its order. *)
Definition known_origins : list string :=
  ["zipcode"; "gg25"; "district"; "kantone"; "gazetteer"; "address"; "parcel"].

Definition group_labels : list string :=
  ["ZIP code"; "Municipal boundaries"; "District"; "Cantons"; "Index";
   "Address"; "Parcel"].

(** The codes of [AVAILABLE_LANGUAGES]; the address and the items of a
    search URL. *)
Definition language_codes : list string := map snd AVAILABLE_LANGUAGES.

Definition search_address : string :=
  "https://api3.geo.admin.ch/rest/services/api/SearchServer".

Definition search_items (lang search crs : string) : list (string * string) :=
  [("type", "locations"); ("searchText", search); ("returnGeometry", "true");
   ("lang", lang); ("sr", crs)].

(** The unreserved characters of a URL: letters, digits and [-._~]. *)
Definition is_unreserved (c : ascii) : bool :=
  (is_digit c || is_upper c || is_lower c || is_char "-" c || is_char "." c
   || is_char "_" c || is_char "~" c)%bool.

Definition unreserved_text (s : string) : bool :=
  forallb is_unreserved (list_ascii_of_string s).

(** A recoding for the examples: [%XX] is decoded when it stands for an
    unreserved character, as [QUrlQuery] decodes it, and every other
    character is kept as it stands. *)
Definition hex_value (c : ascii) : option N :=
  if in_range 48 57 c then Some (code c - 48)%N
  else if in_range 65 70 c then Some (code c - 55)%N
  else if in_range 97 102 c then Some (code c - 87)%N
  else None.

Definition encoded_unreserved (c h1 h2 : ascii) : option ascii :=
  if is_char "%" c then
    match hex_value h1, hex_value h2 with
    | Some a, Some b =>
        let d := ascii_of_N (16 * a + b) in
        if is_unreserved d then Some d else None
    | _, _ => None
    end
  else None.

Fixpoint percent_decode_list (l : list ascii) : list ascii :=
  match l with
  | [] => []
  | c :: tl =>
      match tl with
      | h1 :: h2 :: l' =>
          match encoded_unreserved c h1 h2 with
          | Some d => d :: percent_decode_list l'
          | None => c :: percent_decode_list tl
          end
      | _ => c :: percent_decode_list tl
      end
  end.

Definition percent_decode (s : string) : string :=
  string_of_list_ascii (percent_decode_list (list_ascii_of_string s)).

(** Sample settings and a sample batch: two well-formed elements and,
    between them, one whose box has three numbers. *)
Definition sample_settings : Settings := mkSettings "" "2056" true true true.

(** What one element of the batch comes to, in the order the loop body
    evaluates it: the priority, the category (twice), the rectangle. *)
Definition locator_result (tr : string -> string) (loc : attrs)
    : result QgsLocatorResult :=
  _ <- rank2priority (rank loc) ;;
  _ <- translate_group tr (origin loc) ;;
  g <- translate_group tr (origin loc) ;;
  rect <- box2geometry (geom_st_box2d loc) ;;
  Ok (mkResult (label loc) g rect).

Definition bern : attrs :=
  mkAttrs "<b>Bern</b> (BE)" "bern be" 2 "gg25"
    "BOX(2585300.5 1194400,2607300 1206700.25)".

Definition broken : attrs :=
  mkAttrs "Thun" "thun be" 3 "gg25" "BOX(2610000 1170000,2620000)".

Definition basel : attrs :=
  mkAttrs "Basel" "basel bs" 1 "gg25" "BOX(2608000 1263000,2616000 1270000)".

(** The rectangle of four decimal numbers [n / d]. *)
Definition rect_of (x0 y0 x1 y1 : Z * Z) : QgsRectangle :=
  mkRect (of_fraction (fst x0) (snd x0)) (of_fraction (fst y0) (snd y0))
         (of_fraction (fst x1) (snd x1)) (of_fraction (fst y1) (snd y1)).

Definition bern_result : QgsLocatorResult :=
  mkResult "<b>Bern</b> (BE)" "Municipal boundaries"
    (rect_of (25853005, 10) (1194400, 1) (2607300, 1) (120670025, 100)).

Definition basel_result : QgsLocatorResult :=
  mkResult "Basel" "Municipal boundaries"
    (rect_of (2608000, 1) (1263000, 1) (2616000, 1) (1270000, 1)).

(** The formula [1 - rank/7] on floats: one division, one subtraction. *)
Definition priority_formula (rank : Z) : result binary64 :=
  q <- int_truediv rank 7 ;;
  one <- of_int 1 ;;
  Ok (fsub one q).

(** [(7 - rank) / 7] as a fraction. *)
Definition exact_priority (rank : Z) : Q := (7 - inject_Z rank) / 7.

(** Comparisons of the exact value of a float with fractions. *)
Definition within (x : binary64) (lo hi : Q) : bool :=
  match to_Q x with
  | Some v => (Qle_bool lo v && Qle_bool v hi)%bool
  | None => false
  end.

Definition represents (x : binary64) (q : Q) : bool :=
  match to_Q x with
  | Some v => Qeq_bool v q
  | None => false
  end.

Definition distance_le (x : binary64) (q bound : Q) : bool :=
  match to_Q x with
  | Some v => Qle_bool (Qabs (v - q)) bound
  | None => false
  end.

(** The model of floats against the floats of the machine: a float in
    the form [Prim2SF] gives, and [-rank / 7 + 1], [n / d] computed by the
    machine for integers it holds exactly. *)
Definition to_spec (x : binary64) : SpecFloat.spec_float :=
  match x with
  | Zero s => SpecFloat.S754_zero s
  | Finite s m e => SpecFloat.S754_finite s (Z.to_pos m) e
  | Inf s => SpecFloat.S754_infinity s
  | NaN => SpecFloat.S754_nan
  end.

Definition result_spec (r : result binary64) : option SpecFloat.spec_float :=
  match r with
  | Ok x => Some (to_spec x)
  | Raise _ => None
  end.

Definition machine_int (i : Z) : PrimFloat.float :=
  PrimFloat.of_uint63 (Uint63.of_Z i).

Definition machine_priority (rank : Z) : PrimFloat.float :=
  PrimFloat.add
    (PrimFloat.div (PrimFloat.opp (machine_int rank)) (machine_int 7))
    (machine_int 1).

Definition machine_quotient (n d : Z) : PrimFloat.float :=
  PrimFloat.div (machine_int n) (machine_int d).

(** The longest prefix of a class, and the rest. *)
Fixpoint span (p : ascii -> bool) (l : list ascii)
    : list ascii * list ascii :=
  match l with
  | [] => ([], [])
  | c :: l' =>
      if p c then let '(a, b) := span p l' in (c :: a, b) else ([], l)
  end.

(** The match of a number pattern at a position, worked out by hand:
    the text matched and the text left.  [bounded] tells the pattern with
    [\b] from the one without. *)
Definition number_split (bounded : bool) (prev : option ascii)
    (rest : list ascii) : option (list ascii * list ascii) :=
  if (bounded && word_opt prev)%bool then None
  else
    match span is_digit rest with
    | ([], _) => None
    | (ds, tl) =>
        let whole :=
          if (bounded && word_opt (next_char tl))%bool then None
          else Some (ds, tl) in
        match tl with
        | c :: tl' =>
            if is_char "." c then
              match span is_digit tl' with
              | ([], _) => whole
              | (fs, tl'') =>
                  if (bounded && word_opt (next_char tl''))%bool then whole
                  else Some (ds ++ c :: fs, tl'')
              end
            else whole
        | [] => whole
        end
    end.

Definition number_pattern (bounded : bool) : regex :=
  if bounded then box_pattern else plain_pattern.

Definition starts_with (p : ascii -> bool) (l : list ascii) : bool :=
  match l with c :: _ => p c | [] => false end.

(** The final continuation of [match_at]. *)
Definition kfin : pos -> option (list ascii) := fun y => Some (snd y).

(** What is left of the number patterns after the integer part and after
    the fraction. *)
Definition tail_k (bounded : bool) : pos -> option (list ascii) :=
  if bounded then run Bound kfin else kfin.

Definition frac_k (bounded : bool) : pos -> option (list ascii) :=
  run (Maybe (Cat (Class (is_char ".")) (Many1 is_digit))) (tail_k bounded).

(** Digits, or digits, a point and digits: the texts [of_string] reads. *)
Definition decimal_literal (t : list ascii) : bool :=
  match split_dot t with
  | (ip, None) => all_digits ip
  | (ip, Some fp) => (all_digits ip && all_digits fp)%bool
  end.











(** A minus sign turned into a blank. *)
Definition unsign (c : ascii) : ascii := if Ascii.eqb c "-" then " "%char else c.

Definition unsign_rest (tr : list ascii * list ascii)
    : list ascii * list ascii :=
  (fst tr, map unsign (snd tr)).

(** The text without its leading digits. *)
Definition drop_leading_digits (s : string) : string :=
  string_of_list_ascii (snd (span is_digit (list_ascii_of_string s))).

(** A call of [fetchResults] that gets as far as its request. *)
Definition is_search (ev : event) : bool :=
  match ev with
  | Begin search => (2 <=? String.length search)%nat
  | Return _ _ => false
  end.


(** A batch taken apart: the results of the elements in front of the
    first one that raises, and what that one raises. *)
Fixpoint batch_results (tr : string -> string) (locs : list attrs)
    : list QgsLocatorResult * option exn :=
  match locs with
  | [] => ([], None)
  | loc :: locs' =>
      match locator_result tr loc with
      | Ok r => let '(rs, e) := batch_results tr locs' in (r :: rs, e)
      | Raise e => ([], Some e)
      end
  end.

(** An outcome of the network that is no response with status 200. *)
Definition no_success (o : outcome) : bool :=
  match o with
  | Response status_code _ => negb (status_code =? 200)
  | RequestsExceptionUserAbort => true
  | RequestsException _ => true
  end.

(** What [fetchResults] logs for such an outcome. *)
Definition failure_messages (o : outcome) : list message :=
  match o with
  | Response status_code _ => [MsgStatus status_code]
  | RequestsExceptionUserAbort => []
  | RequestsException err => [MsgRequestsException err]
  end.

(** What a call raises or returns for the second half of [batch_results]. *)
Definition batch_outcome (e : option exn) : result unit :=
  match e with
  | None => Ok tt
  | Some x => Raise x
  end.

(** A locator result as the loop builds it from an element. *)
Definition built_from (tr : string -> string) (loc : attrs)
    (r : QgsLocatorResult) : Prop :=
  displayString r = label loc
  /\ translate_group tr (origin loc) = Ok (group r)
  /\ box2geometry (geom_st_box2d loc) = Ok (userData r).

(** [x < y] on finite floats, by their exact values. *)
Definition less (x y : binary64) : bool :=
  match to_Q x, to_Q y with
  | Some a, Some b => negb (Qle_bool b a)
  | _, _ => false
  end.

(** The float 1.0. *)
Definition float_one : binary64 := Finite false (2 ^ 52) (-52).

(** A float that is neither negative, nor the negative zero, nor NaN. *)
Definition unsigned_float (x : binary64) : bool :=
  match x with
  | Zero neg | Finite neg _ _ | Inf neg => negb neg
  | NaN => false
  end.

(** The text a list of pieces spells. *)
Fixpoint pieces_text (ps : list piece) : list ascii :=
  match ps with
  | [] => []
  | Lit c :: ps' => c :: pieces_text ps'
  | Hit t :: ps' => t ++ pieces_text ps'
  end.

(** The character in front of the position after [l]. *)
Definition end_prev (l : list ascii) (prev : option ascii) : option ascii :=
  fold_left (fun _ c => Some c) l prev.

(** The parts of a box text around its numbers: no part holds a digit;
    what follows a number begins with a character that is neither a word
    character nor a point; what precedes a number ends with a character
    that is no word character. *)
Definition quiet (l : list ascii) : bool :=
  forallb (fun c => negb (is_digit c)) l.

Definition after_number (l : list ascii) : bool :=
  match l with
  | [] => true
  | c :: _ => (negb (is_word c) && negb (is_char "." c))%bool
  end.

Definition lead (l : list ascii) : bool :=
  (quiet l && negb (word_opt (end_prev l None)))%bool.

Definition trail (l : list ascii) : bool := (quiet l && after_number l)%bool.

Definition separator (l : list ascii) : bool :=
  (negb (Nat.eqb (List.length l) 0) && quiet l && after_number l
   && negb (word_opt (end_prev l None)))%bool.

(** The end of a match of the camel-case pattern: after a lower-case
    letter in front of a capital, after a capital in front of a capital
    and a lower-case letter, or where [$] holds. *)
Definition camel_stop (c : ascii) (r : list ascii) : bool :=
  ((is_lower c && starts_with is_upper r)
   || (is_upper c
       && match r with
          | a :: b :: _ => is_upper a && is_lower b
          | _ => false
          end)
   || at_finish r)%bool.

(** The alternatives of the camel-case pattern, behind its [.+?]. *)
Definition camel_alternatives : regex :=
  Or (Cat (Behind is_lower) (Ahead (Class is_upper)))
     (Or (Cat (Behind is_upper) (Ahead (Cat (Class is_upper) (Class is_lower))))
        Finish).

Definition camel_k : pos -> option (list ascii) := run camel_alternatives kfin.

(** Texts without a line feed, and without a capital. *)
Definition no_line_feed (s : string) : bool :=
  forallb is_dot (list_ascii_of_string s).

Definition no_capital (s : string) : bool :=
  forallb (fun c => negb (is_upper c)) (list_ascii_of_string s).

(** A piece that is a match, and not an empty one. *)
Definition full_hit (p : piece) : Prop :=
  exists t : list ascii, p = Hit t /\ t <> [].

(** The underscore turned into a blank, as [replace_char] does. *)
Definition blank_underscore (c : ascii) : ascii :=
  if Ascii.eqb c "_" then " "%char else c.

(* ------------------------------------------------------------------ *)
(** * Category labels *)

Lemma group_labels_distinct : NoDup group_labels.
Proof.
  unfold group_labels.
  repeat (constructor; [simpl; intuition discriminate|]).
  constructor.
Qed.

Lemma translate_group_known (tr : string -> string) (g l : string) :
  In (g, l) (combine known_origins group_labels) ->
  translate_group tr g = Ok (tr l).
Proof.
  simpl. intros H.
  repeat (destruct H as [H|H]; [inversion H; subst; reflexivity|]).
  contradiction.
Qed.

Lemma translate_group_unknown (tr : string -> string) (g : string) :
  ~ In g known_origins ->
  translate_group tr g =
  Raise (NameError ("Could not find group " ++ g ++ " in dictionary")%string).
Proof.
  intros H. unfold translate_group.
  repeat match goal with
  | |- context [String.eqb g ?k] =>
      destruct (String.eqb_spec g k) as [->|_];
      [exfalso; apply H; simpl; tauto|]
  end.
  reflexivity.
Qed.

(** C3: the seven origin keys are mapped to their seven labels, each key
    to its own; every other text raises [NameError], the exception of an
    unknown category, so a label comes back for the seven keys only. *)
Theorem translate_group_total_exact (tr : string -> string) :
  translate_group tr "zipcode" = Ok (tr "ZIP code") /\
  translate_group tr "gg25" = Ok (tr "Municipal boundaries") /\
  translate_group tr "district" = Ok (tr "District") /\
  translate_group tr "kantone" = Ok (tr "Cantons") /\
  translate_group tr "gazetteer" = Ok (tr "Index") /\
  translate_group tr "address" = Ok (tr "Address") /\
  translate_group tr "parcel" = Ok (tr "Parcel") /\
  (forall g : string,
     ~ In g known_origins ->
     translate_group tr g =
     Raise (NameError ("Could not find group " ++ g ++ " in dictionary")%string)) /\
  (forall g l : string, translate_group tr g = Ok l -> In g known_origins).
Proof.
  repeat (split; [reflexivity|]).
  split; [apply translate_group_unknown|].
  intros g l H.
  destruct (in_dec string_dec g known_origins) as [I|N]; [exact I|].
  rewrite (translate_group_unknown tr g N) in H. discriminate H.
Qed.

Lemma translate_group_total_exact_witness :
  translate_group (fun s => s) "lake" =
  Raise (NameError "Could not find group lake in dictionary").
Proof.
  apply (proj1 (proj2 (proj2 (proj2 (proj2 (proj2 (proj2 (proj2
           (translate_group_total_exact (fun s => s))))))))) "lake").
  simpl. intuition discriminate.
Defined.

(* ------------------------------------------------------------------ *)
(** * The search URL *)

Lemma string_app_assoc (a b c : string) :
  ((a ++ b) ++ c = a ++ (b ++ c))%string.
Proof. induction a as [|x a IH]; simpl; [reflexivity | now rewrite IH]. Qed.

Lemma url_with_param_items (recode : string -> string) (url : string)
    (params : list (string * string)) :
  queryItems (url_with_param recode url params) =
    map (fun kv => (recode (fst kv), recode (snd kv))) params
  /\ address (url_with_param recode url params) = url.
Proof.
  unfold url_with_param, setQuery, QUrl_of_string. simpl. split; [|reflexivity].
  assert (G : forall q, fold_left
            (fun q0 (kv : string * string) =>
               addQueryItem recode q0 (fst kv) (snd kv))
            params q =
            q ++ map (fun kv => (recode (fst kv), recode (snd kv))) params).
  { induction params as [|[k v] ps IH]; intros q; simpl.
    - now rewrite app_nil_r.
    - rewrite IH. unfold addQueryItem. now rewrite <- app_assoc. }
  apply (G []).
Qed.

Lemma search_url_items (recode : string -> string) (s : Settings)
    (lang search : string) :
  search_url recode s lang search =
  mkUrl search_address
    (map (fun kv => (recode (fst kv), recode (snd kv)))
       (search_items lang search (setting_crs s))).
Proof. reflexivity. Qed.

Lemma percent_decode_list_plain (l : list ascii) :
  forallb (fun c => negb (is_char "%" c)) l = true ->
  percent_decode_list l = l.
Proof.
  induction l as [|c tl IH]; intros H; [reflexivity|].
  simpl in H. apply andb_prop in H. destruct H as [Hc Htl].
  apply negb_true_iff in Hc. specialize (IH Htl).
  destruct tl as [|h1 [|h2 l']].
  - reflexivity.
  - reflexivity.
  - change (percent_decode_list (c :: h1 :: h2 :: l')) with
      (match encoded_unreserved c h1 h2 with
       | Some d => d :: percent_decode_list l'
       | None => c :: percent_decode_list (h1 :: h2 :: l')
       end).
    unfold encoded_unreserved. rewrite Hc, IH. reflexivity.
Qed.

(** A text of unreserved characters is kept. *)
Lemma percent_decode_unreserved (t : string) :
  unreserved_text t = true -> percent_decode t = t.
Proof.
  unfold unreserved_text, percent_decode. intros H.
  rewrite percent_decode_list_plain; [apply string_of_list_ascii_of_string|].
  rewrite forallb_forall in *. intros c Hc. specialize (H c Hc).
  destruct (is_char "%" c) eqn:P; [|reflexivity].
  unfold is_char in P. apply Ascii.eqb_eq in P. subst c. discriminate H.
Qed.

Lemma language_codes_unreserved (lang : string) :
  In lang language_codes -> unreserved_text lang = true.
Proof.
  simpl. intros H.
  repeat (destruct H as [<-|H]; [reflexivity|]). contradiction.
Qed.

Lemma crs_unreserved (crs : string) :
  In crs AVAILABLE_CRS -> unreserved_text crs = true.
Proof.
  simpl. intros H.
  repeat (destruct H as [<-|H]; [reflexivity|]). contradiction.
Qed.

(** C5, as the code has it: the text goes to [addQueryItem] as it is, and
    [addQueryItem] reads it as percent-encoded.  For a language code of
    the table and one of the two coordinate systems, the URL of a search
    has the fixed address and exactly the five items type, searchText,
    returnGeometry, lang and sr, the value of searchText being the text
    as the toolkit recodes it.  For a text of unreserved characters, which
    the toolkit keeps and does not encode, that value is the text and the
    URL reads [type=locations&searchText=<text>&returnGeometry=true&
    lang=<code>&sr=<epsg>] behind the address. *)
Theorem search_url_parameters (recode enc : string -> string) (s : Settings)
    (lang search : string) :
  (forall t, unreserved_text t = true -> recode t = t) ->
  (forall t, unreserved_text t = true -> enc t = t) ->
  In lang language_codes ->
  In (setting_crs s) AVAILABLE_CRS ->
  address (search_url recode s lang search) = search_address
  /\ queryItems (search_url recode s lang search) =
       [("type", "locations"); ("searchText", recode search);
        ("returnGeometry", "true"); ("lang", lang); ("sr", setting_crs s)]
  /\ (unreserved_text search = true ->
      queryItems (search_url recode s lang search) =
        [("type", "locations"); ("searchText", search);
         ("returnGeometry", "true"); ("lang", lang); ("sr", setting_crs s)]
      /\ QUrl_url enc (search_url recode s lang search) =
         (search_address ++ "?type=locations&searchText=" ++ search
          ++ "&returnGeometry=true&lang=" ++ lang
          ++ "&sr=" ++ setting_crs s)%string).
Proof.
  intros R E L C.
  pose proof (language_codes_unreserved lang L) as UL.
  pose proof (crs_unreserved _ C) as UC.
  assert (Q : queryItems (search_url recode s lang search) =
              [("type", "locations"); ("searchText", recode search);
               ("returnGeometry", "true"); ("lang", lang);
               ("sr", setting_crs s)]).
  { rewrite search_url_items. simpl.
    rewrite (R "type" eq_refl), (R "locations" eq_refl),
      (R "searchText" eq_refl), (R "returnGeometry" eq_refl),
      (R "true" eq_refl), (R "lang" eq_refl), (R "sr" eq_refl),
      (R lang UL), (R _ UC). reflexivity. }
  split; [reflexivity|]. split; [exact Q|].
  intros U. unfold QUrl_url. rewrite Q, (R search U).
  split; [reflexivity|]. simpl.
  rewrite (E "type" eq_refl), (E "locations" eq_refl),
    (E "searchText" eq_refl), (E "returnGeometry" eq_refl),
    (E "true" eq_refl), (E "lang" eq_refl), (E "sr" eq_refl),
    (E lang UL), (E _ UC), (E search U).
  rewrite !string_app_assoc. reflexivity.
Qed.

Lemma search_url_parameters_witness :
  queryItems (search_url percent_decode (mkSettings "" "2056" true true true)
                "de" "Bern") =
    [("type", "locations"); ("searchText", "Bern");
     ("returnGeometry", "true"); ("lang", "de"); ("sr", "2056")]
  /\ QUrl_url (fun t => t)
       (search_url percent_decode (mkSettings "" "2056" true true true)
          "de" "Bern") =
     "https://api3.geo.admin.ch/rest/services/api/SearchServer?type=locations&searchText=Bern&returnGeometry=true&lang=de&sr=2056".
Proof.
  assert (L : In "de" language_codes) by (simpl; tauto).
  assert (C : In (setting_crs (mkSettings "" "2056" true true true))
                AVAILABLE_CRS) by (simpl; tauto).
  destruct (search_url_parameters percent_decode (fun t => t)
              (mkSettings "" "2056" true true true) "de" "Bern"
              percent_decode_unreserved (fun t _ => eq_refl) L C)
    as (_ & _ & U).
  apply U. reflexivity.
Defined.

(** C5 fails on the code: the search text [%41%42] is read as the
    percent-encoded form of [AB], so the URL carries [searchText=AB] and
    not the text. *)
Lemma search_text_read_as_encoded :
  queryItems (search_url percent_decode sample_settings "de" "%41%42") =
    [("type", "locations"); ("searchText", "AB");
     ("returnGeometry", "true"); ("lang", "de"); ("sr", "2056")]
  /\ queryItems (search_url percent_decode sample_settings "de" "%41%42") <>
     [("type", "locations"); ("searchText", "%41%42");
      ("returnGeometry", "true"); ("lang", "de"); ("sr", "2056")]
  /\ QUrl_url (fun t => t)
       (search_url percent_decode sample_settings "de" "%41%42") =
     "https://api3.geo.admin.ch/rest/services/api/SearchServer?type=locations&searchText=AB&returnGeometry=true&lang=de&sr=2056".
Proof. vm_compute. split; [reflexivity | split; [discriminate | reflexivity]]. Qed.

(* ------------------------------------------------------------------ *)
(** * Searches and the requests in flight *)

Section Requests.

Variable recode : string -> string.
Variable tr : string -> string.
Variable DEBUG : bool.
Variable settings : Settings.

Lemma dbg_info_fields (m : message) (w : state) :
  reply (dbg_info DEBUG m w) = reply w /\
  lang (dbg_info DEBUG m w) = lang w /\
  in_flight (dbg_info DEBUG m w) = in_flight w /\
  issued (dbg_info DEBUG m w) = issued w /\
  aborted (dbg_info DEBUG m w) = aborted w /\
  emitted (dbg_info DEBUG m w) = emitted w.
Proof. unfold dbg_info, info. destruct DEBUG; simpl; tauto. Qed.

(** C9: a search text of length 0 or 1 makes [fetchResults] return at
    once: no request is sent, nothing is aborted or emitted, and the call
    ends without an exception; only the debug message of its first line
    is logged when [DEBUG] is set. *)
Theorem fetchResults_short_search (net : request -> outcome)
    (search : string) (w : state) :
  (String.length search < 2)%nat ->
  fetchResults recode tr DEBUG settings net search w = (Ok tt, dbg_info DEBUG MsgStart w)
  /\ in_flight (snd (fetchResults recode tr DEBUG settings net search w)) = in_flight w
  /\ issued (snd (fetchResults recode tr DEBUG settings net search w)) = issued w
  /\ aborted (snd (fetchResults recode tr DEBUG settings net search w)) = aborted w
  /\ emitted (snd (fetchResults recode tr DEBUG settings net search w)) = emitted w.
Proof.
  intros H. unfold fetchResults, fetch_begin.
  apply Nat.ltb_lt in H. rewrite H. simpl.
  destruct (dbg_info_fields MsgStart w) as (_ & _ & F & I & A & E).
  repeat split; assumption.
Qed.

(** A search text of two characters or more sends one request, with the
    URL of the search. *)
Lemma fetch_begin_sends (search : string) (w : state) :
  (2 <= String.length search)%nat ->
  reply w = None ->
  fst (fetch_begin recode DEBUG settings search w) =
    Some (issued w, mkRequest (search_url recode settings (lang w) search) search_headers)
  /\ in_flight (snd (fetch_begin recode DEBUG settings search w)) =
       in_flight w ++
       [(issued w, mkRequest (search_url recode settings (lang w) search) search_headers)]
  /\ aborted (snd (fetch_begin recode DEBUG settings search w)) = aborted w.
Proof.
  intros H R. unfold fetch_begin.
  assert (L : (String.length search <? 2)%nat = false) by (apply Nat.ltb_ge; lia).
  rewrite L.
  destruct (dbg_info_fields MsgStart w) as (R1 & L1 & F1 & I1 & A1 & _).
  rewrite R1, R.
  set (w1 := dbg_info DEBUG MsgStart w) in *.
  destruct (dbg_info_fields (MsgUrl (search_url recode settings (lang w1) search)) w1)
    as (_ & _ & F2 & I2 & A2 & _).
  simpl. rewrite I2, F2, A2, I1, F1, A1, L1. tauto.
Qed.

(** No step of the filter assigns [self.reply]. *)
Lemma handle_loc_reply (loc : attrs) (w : state) :
  reply (snd (handle_loc tr DEBUG loc w)) = reply w
  /\ in_flight (snd (handle_loc tr DEBUG loc w)) = in_flight w
  /\ aborted (snd (handle_loc tr DEBUG loc w)) = aborted w.
Proof.
  clear recode.
  unfold handle_loc, dbg_info, info.
  destruct (rank2priority (rank loc)), (translate_group tr (origin loc)),
    (box2geometry (geom_st_box2d loc)), DEBUG; simpl; tauto.
Qed.

Lemma handle_results_reply (locs : list attrs) (w : state) :
  reply (snd (handle_results tr DEBUG locs w)) = reply w
  /\ in_flight (snd (handle_results tr DEBUG locs w)) = in_flight w
  /\ aborted (snd (handle_results tr DEBUG locs w)) = aborted w.
Proof.
  revert w. induction locs as [|loc locs IH]; intros w; simpl; [tauto|].
  pose proof (handle_loc_reply loc w) as H.
  destruct (handle_loc tr DEBUG loc w) as [[u|e] w']; simpl in *.
  - destruct (IH w') as (A & B & C), H as (A' & B' & C').
    rewrite A, B, C. tauto.
  - exact H.
Qed.

Lemma step_reply (ev : event) (w : state) :
  reply w = None ->
  reply (step recode tr DEBUG settings ev w) = None
  /\ aborted (step recode tr DEBUG settings ev w) = aborted w.
Proof.
  intros R. destruct ev as [search | id o]; simpl.
  - unfold fetch_begin.
    destruct (dbg_info_fields MsgStart w) as (R1 & _ & _ & _ & A1 & _).
    destruct (String.length search <? 2)%nat; simpl.
    + now rewrite R1, A1.
    + rewrite R1, R.
      set (w1 := dbg_info DEBUG MsgStart w) in *.
      destruct (dbg_info_fields (MsgUrl (search_url recode settings (lang w1) search)) w1)
        as (R2 & _ & _ & _ & A2 & _).
      now rewrite R2, A2, R1, A1.
  - unfold fetch_end, handle_response, info.
    destruct o as [code results | | err]; simpl; [|tauto|tauto].
    destruct (negb (code =? 200)); simpl; [tauto|].
    destruct (handle_results_reply results (finished id w)) as (A & _ & C).
    rewrite A, C. simpl. tauto.
Qed.

Lemma steps_reply (evs : list event) (w : state) :
  reply w = None ->
  reply (steps recode tr DEBUG settings evs w) = None
  /\ aborted (steps recode tr DEBUG settings evs w) = aborted w.
Proof.
  revert w. induction evs as [|ev evs IH]; intros w R; simpl; [tauto|].
  destruct (step_reply ev w R) as (R' & A').
  destruct (IH _ R') as (R'' & A''). unfold steps in *. simpl.
  rewrite R'', A'', A'. tauto.
Qed.

(** C7: [self.reply] is [None] after [__init__] and after every call, so
    the guard in front of [abort] never holds: whatever calls overlap, no
    request is ever aborted, and two searches begun one after the other
    are both in flight. *)
Theorem overlapping_searches_both_in_flight (locale_lang : string) :
  (forall evs : list event,
     reply (steps recode tr DEBUG settings evs (init settings locale_lang)) = None
     /\ aborted (steps recode tr DEBUG settings evs (init settings locale_lang)) = [])
  /\ in_flight (steps recode tr DEBUG settings [Begin "Bern"; Begin "Basel"]
                  (init settings locale_lang)) =
     [(0%nat, mkRequest (search_url recode settings (init_lang settings locale_lang) "Bern")
                search_headers);
      (1%nat, mkRequest (search_url recode settings (init_lang settings locale_lang) "Basel")
                search_headers)].
Proof.
  split.
  - intros evs. apply (steps_reply evs (init settings locale_lang)). reflexivity.
  - unfold steps. simpl. unfold fetch_begin, dbg_info, info.
    destruct DEBUG; reflexivity.
Qed.

End Requests.

Lemma fetchResults_short_search_witness :
  fetchResults percent_decode (fun s => s) false sample_settings (fun _ => Response 200 [])
    "B" (init sample_settings "German")
  = (Ok tt, init sample_settings "German").
Proof.
  apply (fetchResults_short_search percent_decode (fun s => s) false sample_settings
           (fun _ => Response 200 []) "B" (init sample_settings "German")).
  simpl. lia.
Defined.

(* ------------------------------------------------------------------ *)
(** * One batch of results *)

Section Batch.

Variable tr : string -> string.
Variable DEBUG : bool.

Lemma dbg_info_emitted (m : message) (w : state) :
  emitted (dbg_info DEBUG m w) = emitted w.
Proof. unfold dbg_info, info. destruct DEBUG; reflexivity. Qed.

Lemma handle_loc_emits (loc : attrs) (w : state) :
  match locator_result tr loc with
  | Ok r =>
      fst (handle_loc tr DEBUG loc w) = Ok tt
      /\ emitted (snd (handle_loc tr DEBUG loc w)) = emitted w ++ [r]
  | Raise e =>
      fst (handle_loc tr DEBUG loc w) = Raise e
      /\ emitted (snd (handle_loc tr DEBUG loc w)) = emitted w
  end.
Proof.
  unfold locator_result, handle_loc, bind.
  destruct (rank2priority (rank loc)) as [p|e]; simpl.
  2: { now rewrite !dbg_info_emitted. }
  destruct (translate_group tr (origin loc)) as [c|e]; simpl.
  2: { now rewrite !dbg_info_emitted. }
  destruct (box2geometry (geom_st_box2d loc)) as [rect|e]; simpl;
    now rewrite !dbg_info_emitted.
Qed.

Lemma handle_results_all (locs : list attrs) (rs : list QgsLocatorResult)
    (w : state) :
  Forall2 (fun loc r => locator_result tr loc = Ok r) locs rs ->
  fst (handle_results tr DEBUG locs w) = Ok tt
  /\ emitted (snd (handle_results tr DEBUG locs w)) = emitted w ++ rs.
Proof.
  intros H. revert w.
  induction H as [|loc r locs rs Hr _ IH]; intros w; simpl.
  - now rewrite app_nil_r.
  - pose proof (handle_loc_emits loc w) as E. rewrite Hr in E.
    destruct (handle_loc tr DEBUG loc w) as [[u|e] w']; simpl in E.
    + destruct E as (_ & E). destruct (IH w') as (A & B).
      rewrite A, B, E, <- app_assoc. tauto.
    + destruct E as (E & _). discriminate.
Qed.

Lemma handle_results_stop (pre post : list attrs) (loc : attrs)
    (rs : list QgsLocatorResult) (e : exn) (w : state) :
  Forall2 (fun l r => locator_result tr l = Ok r) pre rs ->
  locator_result tr loc = Raise e ->
  fst (handle_results tr DEBUG (pre ++ loc :: post) w) = Raise e
  /\ emitted (snd (handle_results tr DEBUG (pre ++ loc :: post) w)) =
     emitted w ++ rs.
Proof.
  intros H He. revert w.
  induction H as [|l r pre rs Hr _ IH]; intros w; simpl.
  - pose proof (handle_loc_emits loc w) as E. rewrite He in E.
    destruct (handle_loc tr DEBUG loc w) as [[u|e'] w']; simpl in *.
    + destruct E as (E & _). discriminate.
    + now rewrite app_nil_r.
  - pose proof (handle_loc_emits l w) as E. rewrite Hr in E.
    destruct (handle_loc tr DEBUG l w) as [[u|e'] w']; simpl in E.
    + destruct E as (_ & E). destruct (IH w') as (A & B).
      rewrite A, B, E, <- app_assoc. tauto.
    + destruct E as (E & _). discriminate.
Qed.

Lemma locator_result_invalid_box (loc : attrs) :
  (exists p, rank2priority (rank loc) = Ok p) ->
  In (origin loc) known_origins ->
  List.length (findall box_pattern (geom_st_box2d loc)) <> 4%nat ->
  locator_result tr loc =
  Raise (InvalidBox ("Could not parse: " ++ geom_st_box2d loc)%string).
Proof.
  intros [p Hp] Ho Hb. unfold locator_result, bind. rewrite Hp.
  assert (G : exists g, translate_group tr (origin loc) = Ok g).
  { simpl in Ho.
    repeat (destruct Ho as [<-|Ho]; [eexists; reflexivity|]). contradiction. }
  destruct G as [g ->]. unfold box2geometry.
  apply Nat.eqb_neq in Hb. now rewrite Hb.
Qed.

(** C8, as the code has it: an element whose box text does not parse ends
    the batch.  The results of the elements in front of it have been
    emitted, [InvalidBox] with the raw text leaves [handle_response], and
    no element after it is looked at. *)
Theorem handle_response_stops_at_invalid_box (pre post : list attrs)
    (loc : attrs) (rs : list QgsLocatorResult) (w : state) :
  Forall2 (fun l r => locator_result tr l = Ok r) pre rs ->
  (exists p, rank2priority (rank loc) = Ok p) ->
  In (origin loc) known_origins ->
  List.length (findall box_pattern (geom_st_box2d loc)) <> 4%nat ->
  fst (handle_response tr DEBUG 200 (pre ++ loc :: post) w) =
    Raise (InvalidBox ("Could not parse: " ++ geom_st_box2d loc)%string)
  /\ emitted (snd (handle_response tr DEBUG 200 (pre ++ loc :: post) w)) =
     emitted w ++ rs.
Proof.
  intros Hpre Hp Ho Hb. unfold handle_response. simpl.
  apply handle_results_stop; [assumption|].
  now apply locator_result_invalid_box.
Qed.

End Batch.

Lemma sample_results :
  locator_result (fun s => s) bern = Ok bern_result
  /\ locator_result (fun s => s) basel = Ok basel_result
  /\ rank2priority (rank broken) = Ok (Finite false 5146971002709138 (-53))
  /\ findall box_pattern (geom_st_box2d broken) = ["2610000"; "1170000"; "2620000"].
Proof. vm_compute. repeat split. Qed.

(** C8 fails on the code: in a batch of three whose second box has three
    numbers only, the first result is emitted, [InvalidBox] is raised, and
    the result of the third, well-formed element is never emitted. *)
Lemma malformed_box_aborts_batch :
  fst (handle_response (fun s => s) false 200 [bern; broken; basel]
         (init sample_settings "German")) =
    Raise (InvalidBox "Could not parse: BOX(2610000 1170000,2620000)")
  /\ emitted (snd (handle_response (fun s => s) false 200 [bern; broken; basel]
                     (init sample_settings "German"))) = [bern_result]
  /\ locator_result (fun s => s) basel = Ok basel_result
  /\ ~ In basel_result
       (emitted (snd (handle_response (fun s => s) false 200
                        [bern; broken; basel] (init sample_settings "German")))).
Proof.
  assert (E : handle_response (fun s => s) false 200 [bern; broken; basel]
                (init sample_settings "German")
              = (Raise (InvalidBox "Could not parse: BOX(2610000 1170000,2620000)"),
                 with_emitted bern_result (init sample_settings "German")))
    by (vm_compute; reflexivity).
  rewrite E. simpl.
  repeat split; try (vm_compute; reflexivity).
  intros [H|[]]. discriminate H.
Qed.

Lemma handle_response_stops_at_invalid_box_witness :
  fst (handle_response (fun s => s) false 200 ([bern] ++ broken :: [basel])
         (init sample_settings "German")) =
    Raise (InvalidBox ("Could not parse: " ++ geom_st_box2d broken)%string)
  /\ emitted (snd (handle_response (fun s => s) false 200
                     ([bern] ++ broken :: [basel])
                     (init sample_settings "German"))) =
     emitted (init sample_settings "German") ++ [bern_result].
Proof.
  apply (handle_response_stops_at_invalid_box (fun s => s) false
           [bern] [basel] broken [bern_result] (init sample_settings "German")).
  - constructor; [vm_compute; reflexivity | constructor].
  - eexists. vm_compute. reflexivity.
  - simpl. tauto.
  - vm_compute. discriminate.
Defined.

(* ------------------------------------------------------------------ *)
(** * Priorities *)

(** C4, as the code has it: for a rank from 1 to 7 the priority is the
    float that [1 - rank/7] gives with each of the two operations rounded
    to nearest.  It lies in [0, 1] and within [2^-53] of the exact
    [(7 - rank)/7]; for rank 7 it is exactly [0.0]. *)
Theorem rank2priority_rounded (rank : Z) :
  1 <= rank <= 7 ->
  exists p : binary64,
    rank2priority rank = Ok p
    /\ priority_formula rank = Ok p
    /\ within p 0 1 = true
    /\ distance_le p (exact_priority rank) (1 # 2 ^ 53) = true
    /\ (rank = 7 -> p = Zero false).
Proof.
  intros H.
  assert (C : rank = 1 \/ rank = 2 \/ rank = 3 \/ rank = 4 \/ rank = 5
              \/ rank = 6 \/ rank = 7) by lia.
  destruct C as [->|[->|[->|[->|[->|[->| ->]]]]]];
    eexists; (split; [vm_compute; reflexivity|]);
    repeat split; try (vm_compute; reflexivity); intros; try lia.
Qed.

Lemma rank2priority_rounded_witness :
  exists p : binary64,
    rank2priority 4 = Ok p
    /\ priority_formula 4 = Ok p
    /\ within p 0 1 = true
    /\ distance_le p (exact_priority 4) (1 # 2 ^ 53) = true
    /\ (4 = 7 -> p = Zero false).
Proof. apply (rank2priority_rounded 4). lia. Defined.

(** The floats of the machine give the same priorities, the same
    quotients [6/7] and [3/7], and the same numbers for the decimal
    texts of the examples. *)
Lemma rank2priority_machine :
  map (fun rank => result_spec (rank2priority rank)) [1; 2; 3; 4; 5; 6; 7]
  = map (fun rank => Some (FloatOps.Prim2SF (machine_priority rank)))
      [1; 2; 3; 4; 5; 6; 7]
  /\ map (fun n => result_spec (int_truediv n 7)) [6; 3]
     = map (fun n => Some (FloatOps.Prim2SF (machine_quotient n 7))) [6; 3]
  /\ map (fun nd => to_spec (of_fraction (fst nd) (snd nd)))
       [(26000005, 10); (120100025, 100); (25853005, 10); (15, 10)]
     = map (fun nd => FloatOps.Prim2SF (machine_quotient (fst nd) (snd nd)))
         [(26000005, 10); (120100025, 100); (25853005, 10); (15, 10)].
Proof. vm_compute. repeat split. Qed.

(** C4 fails on the code at ranks 1 and 4: the priority is not the
    fraction 6/7 (nor 3/7), and not the float nearest to it either, which
    is what [6/7] (and [3/7]) evaluates to; it is the float above. *)
Lemma rank2priority_not_exact :
  rank2priority 1 = Ok (Finite false 7720456504063708 (-53))
  /\ rank2priority 1 <> int_truediv 6 7
  /\ represents (Finite false 7720456504063708 (-53)) (6 # 7) = false
  /\ rank2priority 4 = Ok (Finite false 7720456504063708 (-54))
  /\ rank2priority 4 <> int_truediv 3 7
  /\ represents (Finite false 7720456504063708 (-54)) (3 # 7) = false.
Proof. vm_compute. repeat split; discriminate. Qed.

(* ------------------------------------------------------------------ *)
(** * What the number patterns match *)

Lemma span_spec (p : ascii -> bool) (l : list ascii) :
  l = fst (span p l) ++ snd (span p l)
  /\ forallb p (fst (span p l)) = true
  /\ starts_with p (snd (span p l)) = false.
Proof.
  induction l as [|c l IH]; simpl; [tauto|].
  destruct (p c) eqn:E; simpl.
  - destruct (span p l) as [a b]; simpl in *.
    destruct IH as (-> & F & S). rewrite E, F. tauto.
  - rewrite E. tauto.
Qed.

Lemma span_app (p : ascii -> bool) (a b : list ascii) :
  forallb p a = true -> starts_with p b = false -> span p (a ++ b) = (a, b).
Proof.
  intros Ha Hb. induction a as [|c a IH]; simpl in *.
  - destruct b as [|d b]; simpl in *; [reflexivity | now rewrite Hb].
  - apply andb_prop in Ha. destruct Ha as [-> Ha]. now rewrite IH.
Qed.

Lemma is_digit_word (c : ascii) : is_digit c = true -> is_word c = true.
Proof. unfold is_word. now intros ->. Qed.

Lemma is_digit_not_point (c : ascii) :
  is_digit c = true -> is_char "." c = false.
Proof.
  unfold is_char. intros H. destruct (Ascii.eqb_spec "."%char c) as [<-|]; 
    [discriminate H | reflexivity].
Qed.


Section Greedy.

Context {A : Type}.
Variable p : ascii -> bool.
Variable k : pos -> option A.

Lemma greedy_plus_none (tl : list ascii) :
  starts_with p tl = false -> greedy_plus p k tl = None.
Proof.
  destruct tl as [|d tl]; simpl; [reflexivity | now intros ->].
Qed.

Lemma greedy_plus_cons (c : ascii) (r : list ascii) :
  greedy_plus p k (c :: r) =
  if p c then
    match greedy_plus p k r with
    | Some out => Some out
    | None => k (Some c, r)
    end
  else None.
Proof. reflexivity. Qed.

Lemma last_cons (d c : ascii) (ds : list ascii) :
  last (d :: ds) c = last ds d.
Proof.
  revert d c. induction ds as [|x ds IH]; intros d c; [reflexivity|].
  change (last (d :: x :: ds) c) with (last (x :: ds) c).
  now rewrite !IH.
Qed.

(** The longest run is tried first. *)
Lemma greedy_plus_longest (c : ascii) (ds tl : list ascii) (out : A) :
  p c = true -> forallb p ds = true -> starts_with p tl = false ->
  k (Some (last ds c), tl) = Some out ->
  greedy_plus p k (c :: ds ++ tl) = Some out.
Proof.
  revert c. induction ds as [|d ds IH]; intros c Hc Hds Htl Hk.
  - simpl in Hk. simpl app.
    now rewrite greedy_plus_cons, Hc, (greedy_plus_none tl Htl).
  - simpl in Hds. apply andb_prop in Hds. destruct Hds as [Hd Hds].
    rewrite last_cons in Hk. simpl app.
    rewrite greedy_plus_cons, Hc.
    now rewrite (IH d Hd Hds Htl Hk).
Qed.

(** When what follows cannot succeed in front of one more character of
    the class, giving characters back does not help. *)
Lemma greedy_plus_fail (c : ascii) (ds tl : list ascii) :
  (forall c' r, p c' = true -> starts_with p r = true ->
                k (Some c', r) = None) ->
  p c = true -> forallb p ds = true -> starts_with p tl = false ->
  k (Some (last ds c), tl) = None ->
  greedy_plus p k (c :: ds ++ tl) = None.
Proof.
  intros HK. revert c.
  induction ds as [|d ds IH]; intros c Hc Hds Htl Hk.
  - simpl in Hk. simpl app.
    now rewrite greedy_plus_cons, Hc, (greedy_plus_none tl Htl).
  - simpl in Hds. apply andb_prop in Hds. destruct Hds as [Hd Hds].
    rewrite last_cons in Hk. simpl app.
    rewrite greedy_plus_cons, Hc, (IH d Hd Hds Htl Hk).
    apply HK; [assumption | exact Hd].
Qed.

End Greedy.

Lemma run_number_unfold (bounded : bool) (prev : option ascii)
    (rest : list ascii) :
  run (number_pattern bounded) kfin (prev, rest) =
  if (bounded && negb (at_boundary (prev, rest)))%bool then None
  else greedy_plus is_digit (frac_k bounded) rest.
Proof.
  destruct bounded; simpl; [|reflexivity].
  destruct (at_boundary (prev, rest)); reflexivity.
Qed.

Lemma tail_k_after_digit (bounded : bool) (c : ascii) (r : list ascii) :
  is_digit c = true ->
  tail_k bounded (Some c, r) =
  if (bounded && word_opt (next_char r))%bool then None else Some r.
Proof.
  intros H. destruct bounded; simpl; [|reflexivity].
  unfold at_boundary. simpl. rewrite (is_digit_word c H).
  destruct (word_opt (next_char r)); reflexivity.
Qed.

Lemma tail_k_before_digit (c : ascii) (r : list ascii) :
  is_digit c = true -> starts_with is_digit r = true ->
  tail_k true (Some c, r) = None.
Proof.
  intros H R. rewrite tail_k_after_digit by assumption.
  destruct r as [|d r]; simpl in *; [discriminate|].
  now rewrite (is_digit_word d R).
Qed.

Lemma last_forallb (p : ascii -> bool) (c : ascii) (ds : list ascii) :
  p c = true -> forallb p ds = true -> p (last ds c) = true.
Proof.
  revert c. induction ds as [|d ds IH]; intros c Hc Hds; [assumption|].
  simpl in Hds. apply andb_prop in Hds. destruct Hds as [Hd Hds].
  rewrite last_cons. now apply IH.
Qed.

(** The digits of a fraction: all of them or none. *)
Lemma fraction_digits (bounded : bool) (fs tl : list ascii) :
  forallb is_digit fs = true -> starts_with is_digit tl = false ->
  greedy_plus is_digit (tail_k bounded) (fs ++ tl) =
  match fs with
  | [] => None
  | _ :: _ => if (bounded && word_opt (next_char tl))%bool then None else Some tl
  end.
Proof.
  intros Hfs Htl. destruct fs as [|f fs].
  - now apply greedy_plus_none.
  - simpl in Hfs. apply andb_prop in Hfs. destruct Hfs as [Hf Hfs].
    pose proof (tail_k_after_digit bounded (last fs f) tl
                  (last_forallb is_digit f fs Hf Hfs)) as T.
    simpl app.
    destruct (bounded && word_opt (next_char tl))%bool eqn:E.
    + apply greedy_plus_fail; try assumption.
      apply andb_prop in E. destruct E as [-> _].
      intros c' r. apply tail_k_before_digit.
    + now apply greedy_plus_longest.
Qed.

Lemma frac_k_after_digit (bounded : bool) (c : ascii) (tl : list ascii) :
  is_digit c = true ->
  frac_k bounded (Some c, tl) =
  let whole :=
    if (bounded && word_opt (next_char tl))%bool then None else Some tl in
  match tl with
  | d :: tl' =>
      if is_char "." d then
        match fst (span is_digit tl') with
        | [] => whole
        | _ :: _ =>
            if (bounded && word_opt (next_char (snd (span is_digit tl'))))%bool
            then whole else Some (snd (span is_digit tl'))
        end
      else whole
  | [] => whole
  end.
Proof.
  intros H. unfold frac_k.
  change (run (Maybe (Cat (Class (is_char ".")) (Many1 is_digit)))
            (tail_k bounded) (Some c, tl))
    with (match
            match tl with
            | d :: tl' =>
                if is_char "." d
                then greedy_plus is_digit (tail_k bounded) tl' else None
            | [] => None
            end
          with
          | Some out => Some out
          | None => tail_k bounded (Some c, tl)
          end).
  rewrite (tail_k_after_digit bounded c tl H). simpl.
  destruct tl as [|d tl']; [reflexivity|].
  destruct (is_char "." d); [|reflexivity].
  destruct (span_spec is_digit tl') as (E & F & S).
  rewrite E at 1. rewrite (fraction_digits bounded _ _ F S).
  destruct (fst (span is_digit tl')); [reflexivity|].
  destruct (bounded && word_opt (next_char (snd (span is_digit tl'))))%bool;
    reflexivity.
Qed.

Lemma frac_k_before_digit (c : ascii) (r : list ascii) :
  is_digit c = true -> starts_with is_digit r = true ->
  frac_k true (Some c, r) = None.
Proof.
  intros H R. rewrite frac_k_after_digit by assumption.
  destruct r as [|d r]; simpl in *; [discriminate|].
  now rewrite (is_digit_not_point d R), (is_digit_word d R).
Qed.

Lemma frac_k_plain_total (x : pos) : exists out, frac_k false x = Some out.
Proof.
  unfold frac_k. simpl.
  destruct (match snd x with
            | [] => None
            | c :: rest' =>
                if is_char "." c then greedy_plus is_digit kfin rest' else None
            end); eexists; reflexivity.
Qed.

(** The matcher on the two patterns does what [number_split] says. *)
Lemma run_number (bounded : bool) (prev : option ascii) (rest : list ascii) :
  run (number_pattern bounded) kfin (prev, rest) =
  option_map snd (number_split bounded prev rest).
Proof.
  rewrite run_number_unfold. unfold number_split.
  destruct (span_spec is_digit rest) as (E & F & S).
  destruct (span is_digit rest) as [ds tl]. simpl in E, F, S.
  destruct ds as [|c ds].
  - simpl in E. subst tl. rewrite (greedy_plus_none _ _ rest S).
    destruct (bounded && negb (at_boundary (prev, rest)))%bool,
      (bounded && word_opt prev)%bool; reflexivity.
  - simpl in F. apply andb_prop in F. destruct F as [Hc Hds].
    assert (B : at_boundary (prev, rest) = negb (word_opt prev)).
    { subst rest. unfold at_boundary. simpl. rewrite (is_digit_word c Hc).
      now destruct (word_opt prev). }
    rewrite B, negb_involutive.
    destruct (bounded && word_opt prev)%bool; [reflexivity|].
    pose proof (frac_k_after_digit bounded (last ds c) tl
                  (last_forallb is_digit c ds Hc Hds)) as V.
    assert (G : greedy_plus is_digit (frac_k bounded) rest =
                frac_k bounded (Some (last ds c), tl)).
    { subst rest.
      destruct (frac_k bounded (Some (last ds c), tl)) as [out|] eqn:K.
      - now apply greedy_plus_longest.
      - destruct bounded.
        + apply greedy_plus_fail; try assumption.
          intros c' r. apply frac_k_before_digit.
        + destruct (frac_k_plain_total (Some (last ds c), tl)) as [out K'].
          rewrite K in K'. discriminate. }
    rewrite G, V. cbv zeta.
    destruct tl as [|d tl'].
    + destruct (bounded && word_opt (next_char []))%bool; reflexivity.
    + destruct (is_char "." d).
      * destruct (span is_digit tl') as [fs tl'']. simpl fst. simpl snd.
        destruct fs as [|f fs].
        -- destruct (bounded && word_opt (next_char (d :: tl')))%bool;
             reflexivity.
        -- destruct (bounded && word_opt (next_char tl''))%bool;
             [|reflexivity].
           destruct (bounded && word_opt (next_char (d :: tl')))%bool;
             reflexivity.
      * destruct (bounded && word_opt (next_char (d :: tl')))%bool;
          reflexivity.
Qed.

Lemma split_dot_digits (ds : list ascii) :
  forallb is_digit ds = true -> split_dot ds = (ds, None).
Proof.
  induction ds as [|c ds IH]; intros H; [reflexivity|].
  simpl in H. apply andb_prop in H. destruct H as [Hc Hds].
  simpl. now rewrite (is_digit_not_point c Hc), (IH Hds).
Qed.

Lemma split_dot_point (ds fs : list ascii) (d : ascii) :
  forallb is_digit ds = true -> is_char "." d = true ->
  split_dot (ds ++ d :: fs) = (ds, Some fs).
Proof.
  intros H D. induction ds as [|c ds IH]; simpl.
  - now rewrite D.
  - simpl in H. apply andb_prop in H. destruct H as [Hc Hds].
    now rewrite (is_digit_not_point c Hc), (IH Hds).
Qed.

Lemma all_digits_cons (c : ascii) (ds : list ascii) :
  is_digit c = true -> forallb is_digit ds = true ->
  all_digits (c :: ds) = true.
Proof. intros Hc Hds. unfold all_digits. simpl. now rewrite Hc, Hds. Qed.

(** What [number_split] returns: the text and the rest make up the
    subject; the text is digits, or digits, a point and digits; no digit
    follows it; with [\b], no word character stands before or after. *)
Lemma number_split_spec (bounded : bool) (prev : option ascii)
    (rest t r : list ascii) :
  number_split bounded prev rest = Some (t, r) ->
  rest = t ++ r
  /\ decimal_literal t = true
  /\ starts_with is_digit t = true
  /\ starts_with is_digit r = false
  /\ (bounded = true -> word_opt prev = false /\ word_opt (next_char r) = false).
Proof.
  unfold number_split.
  destruct (bounded && word_opt prev)%bool eqn:P; [discriminate|].
  destruct (span_spec is_digit rest) as (E & F & S).
  destruct (span is_digit rest) as [ds tl]. simpl in E, F, S.
  destruct ds as [|c ds]; [discriminate|].
  pose proof F as F'. simpl in F'. apply andb_prop in F'.
  destruct F' as [Hc Hds].
  assert (W : (if (bounded && word_opt (next_char tl))%bool then None
               else Some (c :: ds, tl)) = Some (t, r) ->
              rest = t ++ r /\ decimal_literal t = true
              /\ starts_with is_digit t = true
              /\ starts_with is_digit r = false
              /\ (bounded = true ->
                  word_opt prev = false /\ word_opt (next_char r) = false)).
  { destruct (bounded && word_opt (next_char tl))%bool eqn:Q; [discriminate|].
    intros H. inversion H; subst t r. repeat split; try assumption.
    - unfold decimal_literal. rewrite (split_dot_digits _ F).
      now apply all_digits_cons.
    - subst bounded. simpl in P. exact P.
    - subst bounded. simpl in Q. exact Q. }
  cbv zeta. destruct tl as [|d tl']; [exact W|].
  destruct (is_char "." d) eqn:D; [|exact W].
  destruct (span_spec is_digit tl') as (E' & F' & S').
  destruct (span is_digit tl') as [fs tl'']. simpl in E', F', S'.
  destruct fs as [|f fs]; [exact W|].
  destruct (bounded && word_opt (next_char tl''))%bool eqn:Q; [exact W|].
  intros H. inversion H; subst t r. clear H W.
  pose proof F' as G. simpl in G. apply andb_prop in G. destruct G as [Hf Hfs].
  repeat split; try assumption.
  - rewrite E, E'. simpl. now rewrite <- app_assoc.
  - unfold decimal_literal.
    change (c :: ds ++ d :: f :: fs) with ((c :: ds) ++ d :: f :: fs).
    rewrite (split_dot_point (c :: ds) (f :: fs) d F D).
    now rewrite !all_digits_cons.
  - subst bounded. simpl in P. exact P.
  - subst bounded. simpl in Q. exact Q.
Qed.

Lemma firstn_front (t r : list ascii) :
  firstn (List.length (t ++ r) - List.length r) (t ++ r) = t.
Proof.
  rewrite length_app.
  replace (List.length t + List.length r - List.length r)%nat
    with (List.length t + 0)%nat by lia.
  rewrite firstn_app_2. simpl. apply app_nil_r.
Qed.

Lemma match_at_number (bounded : bool) (prev : option ascii)
    (rest : list ascii) :
  match_at (number_pattern bounded) prev rest =
  option_map fst (number_split bounded prev rest).
Proof.
  unfold match_at. change (fun y : pos => Some (snd y)) with kfin.
  rewrite run_number.
  destruct (number_split bounded prev rest) as [[t r]|] eqn:E; [|reflexivity].
  destruct (number_split_spec _ _ _ _ _ E) as (-> & _). simpl.
  now rewrite firstn_front.
Qed.

Lemma scan_nil (r : regex) (prev : option ascii) :
  scan r 0 prev [] =
  match match_at r prev [] with
  | Some text => [Hit text]
  | None => []
  end.
Proof. reflexivity. Qed.

Lemma scan_cons (r : regex) (prev : option ascii) (c : ascii)
    (rest : list ascii) :
  scan r 0 prev (c :: rest) =
  match match_at r prev (c :: rest) with
  | Some text =>
      Hit text ::
      match text with
      | [] => Lit c :: scan r 0 (Some c) rest
      | _ :: t => scan r (List.length t) (Some c) rest
      end
  | None => Lit c :: scan r 0 (Some c) rest
  end.
Proof. reflexivity. Qed.

Lemma scan_skip (r : regex) (n : nat) (prev : option ascii) (c : ascii)
    (rest : list ascii) :
  scan r (S n) prev (c :: rest) = scan r n (Some c) rest.
Proof. reflexivity. Qed.

(** Every text [findall] returns is a match at some position. *)
Lemma scan_hits (r : regex) (P : string -> Prop) :
  (forall prev rest t, match_at r prev rest = Some t ->
                       P (string_of_list_ascii t)) ->
  forall rest skip prev, Forall P (hits (scan r skip prev rest)).
Proof.
  intros H. induction rest as [|c rest IH]; intros skip prev.
  - destruct skip; simpl; [|constructor].
    destruct (match_at r prev []) eqn:E; simpl; constructor.
    + now apply (H prev []). 
    + constructor.
  - destruct skip; simpl; [|apply IH].
    destruct (match_at r prev (c :: rest)) as [t|] eqn:E; simpl.
    + constructor; [now apply (H prev (c :: rest))|].
      destruct t; simpl; apply IH.
    + apply IH.
Qed.

Lemma of_string_decimal (t : list ascii) :
  decimal_literal t = true ->
  exists x, of_string (string_of_list_ascii t) = Ok x.
Proof.
  unfold decimal_literal, of_string.
  rewrite list_ascii_of_string_of_list_ascii.
  destruct (split_dot t) as [ip [fp|]]; intros ->; eexists; reflexivity.
Qed.

(** The texts [box2geometry] takes from a box are decimal numbers, so
    [float] accepts each of them. *)
Lemma coords_decimal (box : string) :
  Forall (fun s => decimal_literal (list_ascii_of_string s) = true)
    (findall box_pattern box).
Proof.
  unfold findall. apply scan_hits. intros prev rest t E.
  change box_pattern with (number_pattern true) in E.
  rewrite match_at_number in E.
  destruct (number_split true prev rest) as [[t' r]|] eqn:N; [|discriminate].
  simpl in E. inversion E; subst t'.
  rewrite list_ascii_of_string_of_list_ascii.
  now destruct (number_split_spec _ _ _ _ _ N) as (_ & D & _).
Qed.

Lemma of_string_coord (s : string) :
  decimal_literal (list_ascii_of_string s) = true ->
  exists x, of_string s = Ok x.
Proof.
  intros H. destruct (of_string_decimal _ H) as [x E].
  rewrite string_of_list_ascii_of_string in E. now exists x.
Qed.

(* ------------------------------------------------------------------ *)
(** * The number patterns, continued *)

Lemma forallb_app_r (p : ascii -> bool) (a b : list ascii) :
  forallb p (a ++ b) = true -> forallb p b = true.
Proof. rewrite forallb_app. intros H. apply andb_prop in H. tauto. Qed.


(* ------------------------------------------------------------------ *)
(** * Minus signs in a box text *)

Lemma replace_char_map (old new : ascii) (s : string) :
  list_ascii_of_string (replace_char old new s) =
  map (fun c => if Ascii.eqb c old then new else c) (list_ascii_of_string s).
Proof. induction s as [|c s IH]; simpl; [reflexivity | now rewrite IH]. Qed.

Lemma unsign_classes (c : ascii) :
  is_digit (unsign c) = is_digit c
  /\ is_word (unsign c) = is_word c
  /\ is_char "." (unsign c) = is_char "." c
  /\ (is_digit c = true -> unsign c = c)
  /\ (is_char "." c = true -> unsign c = c).
Proof.
  unfold unsign. destruct (Ascii.eqb_spec c "-"%char) as [->|_].
  - repeat split; try reflexivity; intros H; discriminate H.
  - tauto.
Qed.

Lemma unsign_next (l : list ascii) :
  word_opt (next_char (map unsign l)) = word_opt (next_char l).
Proof. destruct l as [|c l]; simpl; [reflexivity | apply unsign_classes]. Qed.

Lemma unsign_prev (o : option ascii) :
  word_opt (option_map unsign o) = word_opt o.
Proof. destruct o as [c|]; simpl; [apply unsign_classes | reflexivity]. Qed.

Lemma span_unsign (l : list ascii) :
  span is_digit (map unsign l) =
  (fst (span is_digit l), map unsign (snd (span is_digit l))).
Proof.
  induction l as [|c l IH]; simpl; [reflexivity|].
  destruct (unsign_classes c) as (D & _ & _ & K & _). rewrite D.
  destruct (is_digit c) eqn:E; [|reflexivity].
  rewrite IH, (K eq_refl). now destruct (span is_digit l).
Qed.

Lemma number_split_unsign (bounded : bool) (prev : option ascii)
    (rest : list ascii) :
  number_split bounded (option_map unsign prev) (map unsign rest) =
  option_map unsign_rest (number_split bounded prev rest).
Proof.
  unfold number_split. rewrite unsign_prev, span_unsign.
  destruct (bounded && word_opt prev)%bool; [reflexivity|].
  destruct (span is_digit rest) as [ds tl]. simpl fst. simpl snd.
  destruct ds as [|c ds]; [reflexivity|]. cbv zeta.
  rewrite unsign_next.
  destruct tl as [|d tl']; simpl map.
  - now destruct (bounded && word_opt (next_char []))%bool.
  - destruct (unsign_classes d) as (_ & _ & P & _ & K). rewrite P.
    destruct (is_char "." d) eqn:D.
    + rewrite span_unsign.
      destruct (span is_digit tl') as [fs tl'']. simpl fst. simpl snd.
      rewrite unsign_next.
      destruct fs as [|f fs].
      * now destruct (bounded && word_opt (next_char (d :: tl')))%bool.
      * destruct (bounded && word_opt (next_char tl''))%bool.
        -- now destruct (bounded && word_opt (next_char (d :: tl')))%bool.
        -- now rewrite (K eq_refl).
    + now destruct (bounded && word_opt (next_char (d :: tl')))%bool.
Qed.

Lemma match_at_unsign (bounded : bool) (prev : option ascii)
    (rest : list ascii) :
  match_at (number_pattern bounded) (option_map unsign prev) (map unsign rest)
  = match_at (number_pattern bounded) prev rest.
Proof.
  rewrite !match_at_number, number_split_unsign.
  now destruct (number_split bounded prev rest) as [[t r]|].
Qed.

Lemma scan_unsign (bounded : bool) (rest : list ascii) :
  forall (skip : nat) (prev : option ascii),
  hits (scan (number_pattern bounded) skip (option_map unsign prev)
          (map unsign rest))
  = hits (scan (number_pattern bounded) skip prev rest).
Proof.
  induction rest as [|c rest IH]; intros skip prev.
  - destruct skip; [|reflexivity]. simpl map.
    rewrite !scan_nil. change [] with (map unsign []) at 1.
    now rewrite match_at_unsign.
  - simpl map. destruct skip as [|n].
    + rewrite !scan_cons.
      change (unsign c :: map unsign rest) with (map unsign (c :: rest)).
      rewrite match_at_unsign.
      destruct (match_at (number_pattern bounded) prev (c :: rest)) as [t|].
      * simpl. f_equal. destruct t; simpl; apply (IH _ (Some c)).
      * simpl. apply (IH _ (Some c)).
    + rewrite !scan_skip. apply (IH _ (Some c)).
Qed.

Lemma split_dot_chars (t : list ascii) :
  decimal_literal t = true ->
  forallb (fun c => (is_digit c || is_char "." c)%bool) t = true.
Proof.
  unfold decimal_literal, all_digits.
  assert (G : forall t ip o, split_dot t = (ip, o) ->
            forallb is_digit ip = true ->
            match o with
            | Some fp => forallb is_digit fp = true
            | None => True
            end ->
            forallb (fun c => (is_digit c || is_char "." c)%bool) t = true).
  { clear t. induction t as [|c t IH]; intros ip o E Hi Ho; [reflexivity|].
    simpl in E. destruct (is_char "." c) eqn:P.
    - inversion E; subst ip o. simpl. rewrite P, orb_true_r. simpl.
      apply forallb_forall. intros x Hx.
      rewrite forallb_forall in Ho. now rewrite (Ho x Hx).
    - destruct (split_dot t) as [a b] eqn:S. inversion E; subst ip o.
      simpl in Hi. apply andb_prop in Hi. destruct Hi as [Hc Hi].
      simpl. rewrite Hc. simpl. now apply (IH a b). }
  destruct (split_dot t) as [ip [fp|]] eqn:S; intros H.
  - apply andb_prop in H. destruct H as [H1 H2].
    apply andb_prop in H1, H2. destruct H1 as [_ H1], H2 as [_ H2].
    now apply (G t ip (Some fp)).
  - apply andb_prop in H. destruct H as [_ H].
    now apply (G t ip None).
Qed.

(* ------------------------------------------------------------------ *)
(** * Group labels made readable *)

Lemma replace_hits_lits (l : list ascii) : replace_hits [] (map Lit l) = l.
Proof. induction l as [|c l IH]; simpl; [reflexivity | now rewrite IH]. Qed.

Lemma scan_leading_inside (l : list ascii) :
  forall (skip : nat) (x : ascii),
  scan leading_digits_pattern skip (Some x) l = map Lit (skipn skip l).
Proof.
  induction l as [|c l IH]; intros skip x.
  - destruct skip; reflexivity.
  - destruct skip as [|n].
    + rewrite scan_cons. unfold match_at. simpl run. simpl skipn.
      simpl map. now rewrite IH.
    + rewrite scan_skip. simpl skipn. apply IH.
Qed.

Lemma leading_digits_run (l : list ascii) :
  greedy_plus is_digit kfin l =
  match fst (span is_digit l) with
  | [] => None
  | _ :: _ => Some (snd (span is_digit l))
  end.
Proof.
  destruct (span_spec is_digit l) as (E & F & S).
  destruct (span is_digit l) as [ds tl]. simpl in *. subst l.
  destruct ds as [|c ds].
  - now apply greedy_plus_none.
  - simpl in F. apply andb_prop in F. destruct F as [Hc Hds].
    now apply greedy_plus_longest.
Qed.

(** [re.sub('^\d+', '', group)] takes the leading digits away. *)
Lemma sub_leading_digits (s : string) :
  Re.sub leading_digits_pattern "" s = drop_leading_digits s.
Proof.
  unfold Re.sub, drop_leading_digits. f_equal.
  change (list_ascii_of_string "") with (@nil ascii).
  generalize (list_ascii_of_string s). intros l.
  destruct l as [|c l].
  - reflexivity.
  - rewrite scan_cons. unfold match_at.
    change (run leading_digits_pattern (fun y : pos => Some (snd y))
              (None, c :: l))
      with (greedy_plus is_digit kfin (c :: l)).
    rewrite leading_digits_run.
    destruct (span_spec is_digit (c :: l)) as (E & F & S).
    destruct (span is_digit (c :: l)) as [ds tl]. simpl in E, F, S.
    simpl fst. simpl snd.
    destruct ds as [|d ds].
    + simpl in E. subst tl. rewrite scan_leading_inside. simpl.
      now rewrite replace_hits_lits.
    + rewrite E, firstn_front. simpl in E. inversion E; subst d l.
      rewrite scan_leading_inside. simpl.
      rewrite skipn_app, skipn_all, Nat.sub_diag. simpl.
      apply replace_hits_lits.
Qed.

(** C6, as the code has it: the three steps run in the order leading
    digits, underscores, camel case, each only when its setting is on;
    with all three on, ["12_CamelCaseWord"] becomes [" Camel Case Word"]:
    the blank that replaces the underscore stays in front. *)
Theorem beautify_group_steps (s : Settings) (group : string) :
  beautify_group s group =
    (if setting_break_camelcase s then break_camelcase else fun g => g)
      ((if replace_underscore s then replace_char "_" " " else fun g => g)
         ((if remove_leading_digits s then drop_leading_digits
           else fun g => g) group))
  /\ drop_leading_digits "12_CamelCaseWord" = "_CamelCaseWord"
  /\ replace_char "_" " " "_CamelCaseWord" = " CamelCaseWord"
  /\ break_camelcase " CamelCaseWord" = " Camel Case Word"
  /\ beautify_group (mkSettings (setting_lang s) (setting_crs s) true true true)
       "12_CamelCaseWord" = " Camel Case Word".
Proof.
  split; [|repeat split; vm_compute; reflexivity].
  unfold beautify_group. rewrite sub_leading_digits.
  destruct (remove_leading_digits s), (replace_underscore s),
    (setting_break_camelcase s); reflexivity.
Qed.

(** C6 fails on the code: with all three steps on, the result for
    ["12_CamelCaseWord"] is not ["Camel Case Word"]. *)
Lemma beautify_group_keeps_blank :
  beautify_group sample_settings "12_CamelCaseWord" <> "Camel Case Word".
Proof. vm_compute. discriminate. Qed.

(* ------------------------------------------------------------------ *)
(** * The language of an instance *)

(** X1: without a language setting, [__init__] takes the language from
    the table of the locale names: the language of the instance is the
    entry of the locale name when the table has one, and English when it
    has none, so it is one of de, fr, it, rm, en; with a setting, it is
    the setting as it stands. *)
Theorem init_lang_supported (s : Settings) (locale_lang : string) :
  (setting_lang s = "" ->
   forall code : string,
   In (locale_lang, code) AVAILABLE_LANGUAGES ->
   init_lang s locale_lang = code)
  /\ (setting_lang s = "" ->
      ~ In locale_lang (map fst AVAILABLE_LANGUAGES) ->
      init_lang s locale_lang = "en")
  /\ (setting_lang s = "" -> In (init_lang s locale_lang) language_codes)
  /\ (setting_lang s <> "" -> init_lang s locale_lang = setting_lang s).
Proof.
  unfold init_lang. repeat split.
  - intros -> code H. simpl in H.
    repeat (destruct H as [H|H];
            [inversion H; subst locale_lang code; reflexivity|]).
    contradiction.
  - intros -> N. simpl.
    repeat match goal with
    | |- context [String.eqb locale_lang ?k] =>
        destruct (String.eqb_spec locale_lang k) as [->|_];
        [exfalso; apply N; simpl; tauto|]
    end.
    reflexivity.
  - intros ->. simpl.
    repeat match goal with
    | |- context [String.eqb locale_lang ?k] =>
        destruct (String.eqb locale_lang k); [simpl; tauto|]
    end.
    simpl. tauto.
  - intros N. destruct (String.eqb_spec (setting_lang s) "") as [E|_];
      [contradiction | reflexivity].
Qed.

Lemma init_lang_supported_witness :
  init_lang sample_settings "SwissGerman" = "de"
  /\ init_lang sample_settings "Romansh" = "rm"
  /\ init_lang sample_settings "de_CH" = "en"
  /\ In (init_lang sample_settings "French") language_codes
  /\ init_lang (mkSettings "it" "2056" true true true) "German" = "it".
Proof.
  pose proof (init_lang_supported sample_settings "SwissGerman")
    as (A & _ & _ & _).
  pose proof (init_lang_supported sample_settings "Romansh")
    as (A' & _ & _ & _).
  pose proof (init_lang_supported sample_settings "de_CH") as (_ & B & _ & _).
  pose proof (init_lang_supported sample_settings "French") as (_ & _ & C & _).
  pose proof (init_lang_supported (mkSettings "it" "2056" true true true)
                "German") as (_ & _ & _ & D).
  split; [apply A; [reflexivity | simpl; tauto]|].
  split; [apply A'; [reflexivity | simpl; tauto]|].
  split; [apply B; [reflexivity | simpl; intuition discriminate]|].
  split; [apply C; reflexivity|].
  apply D. simpl. discriminate.
Defined.

(* ------------------------------------------------------------------ *)
(** * What an instance sends, whatever calls overlap *)

Section Traffic.

Variable recode : string -> string.
Variable tr : string -> string.
Variable DEBUG : bool.
Variable settings : Settings.

Lemma dbg_info_log_off (m : message) (w : state) :
  dbg_info false m w = w.
Proof. reflexivity. Qed.

Lemma handle_loc_lang (loc : attrs) (w : state) :
  lang (snd (handle_loc tr DEBUG loc w)) = lang w
  /\ issued (snd (handle_loc tr DEBUG loc w)) = issued w.
Proof.
  clear recode.
  unfold handle_loc, dbg_info, info.
  destruct (rank2priority (rank loc)), (translate_group tr (origin loc)),
    (box2geometry (geom_st_box2d loc)), DEBUG; simpl; tauto.
Qed.

Lemma handle_results_lang (locs : list attrs) (w : state) :
  lang (snd (handle_results tr DEBUG locs w)) = lang w
  /\ issued (snd (handle_results tr DEBUG locs w)) = issued w.
Proof.
  revert w. induction locs as [|loc locs IH]; intros w; simpl; [tauto|].
  pose proof (handle_loc_lang loc w) as H.
  destruct (handle_loc tr DEBUG loc w) as [[u|e] w']; simpl in *.
  - destruct (IH w') as (A & B), H as (A' & B'). rewrite A, B. tauto.
  - exact H.
Qed.

(** The effect of one event on the requests in flight, for an instance
    whose [self.reply] is [None]. *)
Lemma step_traffic (ev : event) (w : state) :
  reply w = None ->
  lang (step recode tr DEBUG settings ev w) = lang w
  /\ match ev with
     | Begin search =>
         if (2 <=? String.length search)%nat then
           in_flight (step recode tr DEBUG settings ev w) =
             in_flight w ++
             [(issued w,
               mkRequest (search_url recode settings (lang w) search) search_headers)]
           /\ issued (step recode tr DEBUG settings ev w) = S (issued w)
         else
           in_flight (step recode tr DEBUG settings ev w) = in_flight w
           /\ issued (step recode tr DEBUG settings ev w) = issued w
     | Return id _ =>
         in_flight (step recode tr DEBUG settings ev w) =
           remove_request id (in_flight w)
         /\ issued (step recode tr DEBUG settings ev w) = issued w
     end.
Proof.
  intros R. destruct ev as [search | id o]; unfold step.
  - unfold fetch_begin.
    destruct (dbg_info_fields DEBUG MsgStart w) as (R1 & L1 & F1 & I1 & _).
    destruct (2 <=? String.length search)%nat eqn:E.
    + assert (L : (String.length search <? 2)%nat = false).
      { apply Nat.ltb_ge. now apply Nat.leb_le in E. }
      rewrite L, R1, R.
      set (w1 := dbg_info DEBUG MsgStart w) in *.
      destruct (dbg_info_fields DEBUG
                  (MsgUrl (search_url recode settings (lang w1) search)) w1)
        as (_ & L2 & F2 & I2 & _).
      simpl. now rewrite L2, F2, I2, L1, F1, I1.
    + assert (L : (String.length search <? 2)%nat = true).
      { apply Nat.ltb_lt. apply Nat.leb_gt in E. exact E. }
      rewrite L. simpl. tauto.
  - unfold fetch_end, handle_response, info.
    destruct o as [code results | | err]; simpl; try tauto.
    destruct (negb (code =? 200)); simpl; [tauto|].
    destruct (handle_results_lang results (finished id w)) as (A & B).
    destruct (handle_results_reply tr DEBUG results (finished id w))
      as (_ & C & _).
    rewrite A, B, C. simpl. tauto.
Qed.



(** X3: the requests an instance has sent are as many as the calls with
    a search text of two characters or more; a shorter text and the
    return of a call send nothing. *)
Theorem one_request_per_search (locale_lang : string) (evs : list event) :
  issued (steps recode tr DEBUG settings evs (init settings locale_lang)) =
  List.length (filter is_search evs).
Proof.
  assert (G : forall evs w,
            reply w = None ->
            issued (steps recode tr DEBUG settings evs w) =
            (issued w + List.length (filter is_search evs))%nat).
  { clear evs. induction evs as [|ev evs IH]; intros w R; [simpl; lia|].
    destruct (step_reply recode tr DEBUG settings ev w R) as (R' & _).
    destruct (step_traffic ev w R) as (_ & T).
    change (steps recode tr DEBUG settings (ev :: evs) w)
      with (steps recode tr DEBUG settings evs (step recode tr DEBUG settings ev w)).
    rewrite (IH _ R').
    change (filter is_search (ev :: evs))
      with (if is_search ev then ev :: filter is_search evs
            else filter is_search evs).
    destruct ev as [search | id o].
    - change (is_search (Begin search))
        with (2 <=? String.length search)%nat.
      destruct (2 <=? String.length search)%nat; destruct T as (_ & ->);
        simpl; lia.
    - destruct T as (_ & ->). simpl. lia. }
  rewrite (G evs (init settings locale_lang) eq_refl). reflexivity.
Qed.

End Traffic.

(* ------------------------------------------------------------------ *)
(** * Searches that fail *)

Section Failures.

Variable recode : string -> string.
Variable tr : string -> string.
Variable settings : Settings.

Lemma fetch_begin_shape (DEBUG : bool) (search : string) (w : state) :
  emitted (snd (fetch_begin recode DEBUG settings search w)) = emitted w
  /\ (DEBUG = false -> log (snd (fetch_begin recode DEBUG settings search w)) = log w)
  /\ ((String.length search <? 2)%nat = true ->
      fst (fetch_begin recode DEBUG settings search w) = None)
  /\ ((String.length search <? 2)%nat = false ->
      exists id : nat,
        fst (fetch_begin recode DEBUG settings search w) =
        Some (id, mkRequest (search_url recode settings (lang w) search)
                    search_headers)).
Proof.
  unfold fetch_begin.
  destruct (String.length search <? 2)%nat.
  - repeat split.
    + apply dbg_info_fields.
    + now intros ->.
    + discriminate.
  - split; [|split; [|split; [discriminate|]]].
    + unfold dbg_info, info.
      destruct DEBUG; simpl; destruct (reply w) as [id|]; simpl;
        try destruct (is_running id _); reflexivity.
    + intros ->. simpl.
      destruct (reply w) as [id|]; simpl;
        try destruct (is_running id w); reflexivity.
    + intros _. eexists. simpl. f_equal. f_equal. f_equal. f_equal.
      unfold dbg_info, info.
      destruct DEBUG; simpl; destruct (reply w) as [id|]; simpl;
        try destruct (is_running id _); reflexivity.
Qed.

Lemma fetch_end_failure (DEBUG : bool) (id : nat) (o : outcome) (w : state) :
  no_success o = true ->
  fst (fetch_end tr DEBUG id o w) = Ok tt
  /\ emitted (snd (fetch_end tr DEBUG id o w)) = emitted w
  /\ log (snd (fetch_end tr DEBUG id o w)) = log w ++ failure_messages o.
Proof.
  clear recode.
  intros N. unfold fetch_end, handle_response, info.
  destruct o as [code results | | err]; simpl in *.
  - rewrite N. simpl. tauto.
  - rewrite app_nil_r. tauto.
  - tauto.
Qed.

(** X4: when the network gives no response with status 200 (another
    status, an abort by the user, a [RequestsException]), [fetchResults]
    ends without an exception and emits nothing.  With [DEBUG] off, an
    abort leaves the log as it was and the other two add one message. *)
Theorem fetchResults_failure (DEBUG : bool) (net : request -> outcome)
    (search : string) (w : state) :
  (forall r, no_success (net r) = true) ->
  fst (fetchResults recode tr DEBUG settings net search w) = Ok tt
  /\ emitted (snd (fetchResults recode tr DEBUG settings net search w)) = emitted w
  /\ ((2 <= String.length search)%nat ->
      log (snd (fetchResults recode tr false settings net search w)) =
      log w ++
      failure_messages
        (net (mkRequest (search_url recode settings (lang w) search) search_headers))).
Proof.
  intros N. split; [|split].
  - unfold fetchResults.
    destruct (fetch_begin_shape DEBUG search w) as (_ & _ & S & L).
    destruct (fetch_begin recode DEBUG settings search w) as [o w']. simpl in S, L.
    destruct (String.length search <? 2)%nat.
    + now rewrite (S eq_refl).
    + destruct (L eq_refl) as [id ->]. now apply fetch_end_failure.
  - unfold fetchResults.
    destruct (fetch_begin_shape DEBUG search w) as (E & _ & S & L).
    destruct (fetch_begin recode DEBUG settings search w) as [o w'].
    simpl in E, S, L.
    destruct (String.length search <? 2)%nat.
    + now rewrite (S eq_refl).
    + destruct (L eq_refl) as [id ->].
      match goal with
      | |- context [fetch_end _ _ _ (net ?r) _] =>
          destruct (fetch_end_failure DEBUG id (net r) w' (N r))
            as (_ & -> & _)
      end.
      exact E.
  - intros H. unfold fetchResults.
    destruct (fetch_begin_shape false search w) as (_ & G & _ & L).
    destruct (fetch_begin recode false settings search w) as [o w'].
    simpl in G, L.
    assert (T : (String.length search <? 2)%nat = false)
      by (apply Nat.ltb_ge; lia).
    destruct (L T) as [id ->].
    match goal with
    | |- context [fetch_end _ _ _ (net ?r) _] =>
        destruct (fetch_end_failure false id (net r) w' (N r))
          as (_ & _ & ->)
    end.
    now rewrite (G eq_refl).
Qed.

End Failures.

Lemma fetchResults_failure_witness :
  fst (fetchResults percent_decode (fun s => s) true sample_settings
         (fun _ => Response 503 [bern]) "Bern" (init sample_settings "German"))
    = Ok tt
  /\ emitted (snd (fetchResults percent_decode (fun s => s) true sample_settings
                     (fun _ => Response 503 [bern]) "Bern"
                     (init sample_settings "German")))
     = emitted (init sample_settings "German")
  /\ log (snd (fetchResults percent_decode (fun s => s) false sample_settings
                 (fun _ => Response 503 [bern]) "Bern"
                 (init sample_settings "German")))
     = [MsgStatus 503].
Proof.
  pose proof (fetchResults_failure percent_decode (fun s => s) sample_settings true
                (fun _ => Response 503 [bern]) "Bern"
                (init sample_settings "German") (fun _ => eq_refl))
    as (A & B & C).
  split; [exact A|]. split; [exact B|].
  apply C. simpl. lia.
Defined.

(* ------------------------------------------------------------------ *)
(** * A batch, element by element *)

Section Elements.

Variable tr : string -> string.

Lemma locator_result_built (loc : attrs) (r : QgsLocatorResult) :
  locator_result tr loc = Ok r -> built_from tr loc r.
Proof.
  unfold locator_result, bind, built_from.
  destruct (rank2priority (rank loc)); [|discriminate].
  destruct (translate_group tr (origin loc)) as [g|]; [|discriminate].
  destruct (box2geometry (geom_st_box2d loc)) as [rect|]; [|discriminate].
  intros H. inversion H; subst r. simpl. tauto.
Qed.

Lemma handle_results_batch (DEBUG : bool) (locs : list attrs) (w : state) :
  fst (handle_results tr DEBUG locs w) =
    batch_outcome (snd (batch_results tr locs))
  /\ emitted (snd (handle_results tr DEBUG locs w)) =
     emitted w ++ fst (batch_results tr locs).
Proof.
  revert w. induction locs as [|loc locs IH]; intros w; simpl.
  - now rewrite app_nil_r.
  - pose proof (handle_loc_emits tr DEBUG loc w) as E.
    destruct (locator_result tr loc) as [r|e];
      destruct (handle_loc tr DEBUG loc w) as [[u|e'] w']; simpl in E;
      destruct E as (E1 & E2); try discriminate E1.
    + destruct (IH w') as (A & B).
      destruct (batch_results tr locs) as [rs x]. simpl in *.
      rewrite A, B, E2, <- app_assoc. tauto.
    + simpl. rewrite E1, E2, app_nil_r. tauto.
Qed.

Lemma batch_results_prefix (locs : list attrs) :
  exists n : nat,
    (n <= List.length locs)%nat
    /\ Forall2 (fun l r => locator_result tr l = Ok r) (firstn n locs)
         (fst (batch_results tr locs))
    /\ match nth_error locs n with
       | None => snd (batch_results tr locs) = None
       | Some loc =>
           exists e, locator_result tr loc = Raise e
                     /\ snd (batch_results tr locs) = Some e
       end.
Proof.
  induction locs as [|loc locs IH].
  - exists 0%nat. simpl. repeat split; [lia | constructor].
  - simpl. destruct (locator_result tr loc) as [r|e] eqn:E.
    + destruct IH as (n & Hn & F & T).
      destruct (batch_results tr locs) as [rs x]. simpl in *.
      exists (S n). simpl. repeat split; [lia | now constructor | exact T].
    + exists 0%nat. simpl. repeat split; [lia | constructor |].
      exists e. now split.
Qed.

(** X5: of a batch with status 200, [handle_response] emits the results
    of the elements up to the first one that raises, in their order, each
    with the label, the category and the rectangle of its element; it
    ends normally when no element raises, and with the exception of that
    first element otherwise.  Nothing later in the batch is emitted. *)
Theorem handle_response_prefix (DEBUG : bool) (locs : list attrs)
    (w : state) :
  exists (n : nat) (rs : list QgsLocatorResult),
    (n <= List.length locs)%nat
    /\ Forall2 (built_from tr) (firstn n locs) rs
    /\ emitted (snd (handle_response tr DEBUG 200 locs w)) = emitted w ++ rs
    /\ match nth_error locs n with
       | None => fst (handle_response tr DEBUG 200 locs w) = Ok tt
       | Some loc =>
           exists e, locator_result tr loc = Raise e
                     /\ fst (handle_response tr DEBUG 200 locs w) = Raise e
       end.
Proof.
  destruct (batch_results_prefix locs) as (n & Hn & F & T).
  destruct (handle_results_batch DEBUG locs w) as (A & B).
  exists n, (fst (batch_results tr locs)).
  unfold handle_response. simpl negb. cbv iota.
  split; [exact Hn|]. split; [|split; [exact B|]].
  - clear - F. induction F; constructor; [|assumption].
    now apply locator_result_built.
  - rewrite A. destruct (nth_error locs n) as [loc|].
    + destruct T as (e & E1 & ->). now exists e.
    + now rewrite T.
Qed.

Lemma handle_results_log_off (locs : list attrs) (w : state) :
  log (snd (handle_results tr false locs w)) = log w.
Proof.
  revert w. induction locs as [|loc locs IH]; intros w; [reflexivity|].
  simpl handle_results.
  assert (L : log (snd (handle_loc tr false loc w)) = log w).
  { unfold handle_loc, dbg_info.
    destruct (rank2priority (rank loc)), (translate_group tr (origin loc)),
      (box2geometry (geom_st_box2d loc)); reflexivity. }
  destruct (handle_loc tr false loc w) as [[u|e] w']; simpl in *.
  - now rewrite IH.
  - exact L.
Qed.

(** X6: [DEBUG] changes the log only.  With it on or off,
    [handle_response] ends the same way and emits the same results (the
    arguments of the debug messages are evaluated in both cases); with it
    off, a batch with status 200 logs nothing. *)
Theorem debug_changes_log_only (status_code : Z) (locs : list attrs)
    (w : state) :
  fst (handle_response tr true status_code locs w) =
    fst (handle_response tr false status_code locs w)
  /\ emitted (snd (handle_response tr true status_code locs w)) =
     emitted (snd (handle_response tr false status_code locs w))
  /\ log (snd (handle_response tr false 200 locs w)) = log w.
Proof.
  unfold handle_response. split; [|split].
  - destruct (negb (status_code =? 200)); [reflexivity|].
    destruct (handle_results_batch true locs w) as (-> & _).
    now destruct (handle_results_batch false locs w) as (-> & _).
  - destruct (negb (status_code =? 200)); [reflexivity|].
    destruct (handle_results_batch true locs w) as (_ & ->).
    now destruct (handle_results_batch false locs w) as (_ & ->).
  - simpl negb. cbv iota. apply handle_results_log_off.
Qed.

End Elements.

(* ------------------------------------------------------------------ *)
(** * More on priorities and coordinates *)

(** X7: over the ranks 1 to 7 the priority falls strictly as the rank
    grows, and it stays strictly below 1.0 (rank 1, the best, gives about
    0.857). *)
Theorem rank2priority_decreasing (r s : Z) :
  1 <= r -> r < s -> s <= 7 ->
  exists p q : binary64,
    rank2priority r = Ok p /\ rank2priority s = Ok q
    /\ less q p = true /\ less p float_one = true.
Proof.
  intros H1 H2 H3.
  assert (Hr : r = 1 \/ r = 2 \/ r = 3 \/ r = 4 \/ r = 5 \/ r = 6) by lia.
  assert (Hs : s = 2 \/ s = 3 \/ s = 4 \/ s = 5 \/ s = 6 \/ s = 7) by lia.
  destruct Hr as [->|[->|[->|[->|[->| ->]]]]];
    destruct Hs as [->|[->|[->|[->|[->| ->]]]]];
    try (exfalso; lia);
    eexists; eexists; (split; [vm_compute; reflexivity|]);
    (split; [vm_compute; reflexivity|]); split; vm_compute; reflexivity.
Qed.

Lemma rank2priority_decreasing_witness :
  exists p q : binary64,
    rank2priority 2 = Ok p /\ rank2priority 5 = Ok q
    /\ less q p = true /\ less p float_one = true.
Proof. apply (rank2priority_decreasing 2 5); lia. Defined.

(** The sign and the kind of what [round] returns. *)
Lemma round_cases (neg : bool) (n d : Z) :
  round neg n d = Zero neg
  \/ round neg n d = Inf neg
  \/ exists m e, round neg n d = Finite neg m e.
Proof.
  unfold round.
  destruct (scaled n d (Z.log2 n - Z.log2 d - 52)) as [n1 d1].
  destruct (scaled n d _) as [n2 d2].
  destruct (nearest_even n2 d2 =? 2 ^ 53); 
    match goal with
    | |- context [if ?m =? 0 then _ else _] => destruct (m =? 0); [tauto|]
    end;
    match goal with
    | |- context [if e_max <? ?e then _ else _] =>
        destruct (e_max <? e); [tauto|]
    end; right; right; eexists; eexists; reflexivity.
Qed.

(** No overflow while the quotient is below [2^1001]. *)
Lemma round_no_overflow (neg : bool) (n d : Z) (s : bool) :
  Z.log2 n - Z.log2 d <= 1000 -> round neg n d <> Inf s.
Proof.
  intros H. unfold round.
  destruct (scaled n d (Z.log2 n - Z.log2 d - 52)) as [n1 d1].
  set (e2 := if n1 <? d1 * 2 ^ 52 then Z.log2 n - Z.log2 d - 52 - 1
             else Z.log2 n - Z.log2 d - 52).
  assert (B : Z.max e2 e_min + 1 <= 950).
  { unfold e2, e_min. destruct (n1 <? d1 * 2 ^ 52); lia. }
  destruct (scaled n d (Z.max e2 e_min)) as [n2 d2].
  destruct (nearest_even n2 d2 =? 2 ^ 53);
    match goal with
    | |- context [if ?m =? 0 then _ else _] =>
        destruct (m =? 0); [discriminate|]
    end;
    match goal with
    | |- context [if e_max <? ?e then _ else _] =>
        destruct (e_max <? e) eqn:E; [|discriminate]
    end; apply Z.ltb_lt in E; unfold e_max in E; lia.
Qed.

(** X8: [rank2priority] returns a float for every rank of absolute value
    below [2^1000]; the [OverflowError] of the integer division takes a
    rank beyond that. *)
Theorem rank2priority_no_overflow (rank : Z) :
  Z.abs rank < 2 ^ 1000 ->
  exists p : binary64, rank2priority rank = Ok p.
Proof.
  intros H. unfold rank2priority, int_truediv.
  assert (O : exists one, of_int 1 = Ok one)
    by (eexists; vm_compute; reflexivity).
  destruct O as [one ->].
  destruct (- rank =? 0) eqn:Z0; [eexists; reflexivity|].
  apply Z.eqb_neq in Z0.
  assert (L : Z.log2 (Z.abs (- rank)) - Z.log2 7 <= 1000).
  { assert (Z.log2 (Z.abs (- rank)) < 1000).
    { apply Z.log2_lt_pow2; lia. }
    change (Z.log2 7) with 2. lia. }
  pose proof (round_no_overflow (- rank <? 0) (Z.abs (- rank)) 7) as N.
  destruct (round (- rank <? 0) (Z.abs (- rank)) 7) as [a | a m e | a |];
    try (eexists; reflexivity).
  exfalso. now apply (N a L).
Qed.

Lemma rank2priority_no_overflow_witness :
  exists p : binary64, rank2priority (-(10 ^ 300)) = Ok p.
Proof.
  apply (rank2priority_no_overflow (-(10 ^ 300))).
  vm_compute. reflexivity.
Defined.

(** [rank2priority] raises on a rank of [2^1000] or more in absolute
    value only. *)
Lemma rank2priority_raises (rank : Z) (e : exn) :
  rank2priority rank = Raise e -> 2 ^ 1000 <= Z.abs rank.
Proof.
  intros R. destruct (Z.le_gt_cases (2 ^ 1000) (Z.abs rank)) as [H|H];
    [exact H | exfalso].
  revert R. unfold rank2priority, int_truediv.
  assert (O : exists one, of_int 1 = Ok one)
    by (eexists; vm_compute; reflexivity).
  destruct O as [one ->].
  destruct (- rank =? 0) eqn:Z0; [discriminate|].
  assert (L : Z.log2 (Z.abs (- rank)) - Z.log2 7 <= 1000).
  { assert (Z.log2 (Z.abs (- rank)) < 1000).
    { apply Z.eqb_neq in Z0. apply Z.log2_lt_pow2; lia. }
    change (Z.log2 7) with 2. lia. }
  pose proof (round_no_overflow (- rank <? 0) (Z.abs (- rank)) 7) as N.
  destruct (round (- rank <? 0) (Z.abs (- rank)) 7) as [a | a m e' | a |];
    try discriminate.
  intros _. now apply (N a L).
Qed.

Lemma of_string_unsigned (s : string) (x : binary64) :
  of_string s = Ok x -> unsigned_float x = true.
Proof.
  assert (F : forall n d, unsigned_float (of_fraction n d) = true).
  { intros n d. unfold of_fraction. destruct (n =? 0); [reflexivity|].
    destruct (round_cases false n d) as [-> | [-> | (m & e & ->)]];
      reflexivity. }
  unfold of_string.
  destruct (split_dot (list_ascii_of_string s)) as [ip [fp|]].
  - destruct (all_digits ip && all_digits fp)%bool; [|discriminate].
    intros H. inversion H. apply F.
  - destruct (all_digits ip); [|discriminate].
    intros H. inversion H. apply F.
Qed.

(** X9: no coordinate of a rectangle [box2geometry] returns is negative,
    a negative zero or NaN, whatever the text. *)
Theorem box2geometry_unsigned (box : string) (rect : QgsRectangle) :
  box2geometry box = Ok rect ->
  unsigned_float (xMinimum rect) = true
  /\ unsigned_float (yMinimum rect) = true
  /\ unsigned_float (xMaximum rect) = true
  /\ unsigned_float (yMaximum rect) = true.
Proof.
  unfold box2geometry, bind.
  destruct (negb (Nat.eqb (List.length (findall box_pattern box)) 4));
    [discriminate|].
  destruct (of_string (nth 0 (findall box_pattern box) "")) as [x0|] eqn:E0;
    [|discriminate].
  destruct (of_string (nth 1 (findall box_pattern box) "")) as [y0|] eqn:E1;
    [|discriminate].
  destruct (of_string (nth 2 (findall box_pattern box) "")) as [x1|] eqn:E2;
    [|discriminate].
  destruct (of_string (nth 3 (findall box_pattern box) "")) as [y1|] eqn:E3;
    [|discriminate].
  intros H. inversion H; subst rect. simpl.
  repeat split; eapply of_string_unsigned; eassumption.
Qed.

Lemma box2geometry_unsigned_witness :
  unsigned_float (xMinimum (rect_of (15, 10) (2, 1) (3, 1) (4, 1))) = true
  /\ unsigned_float (yMinimum (rect_of (15, 10) (2, 1) (3, 1) (4, 1))) = true
  /\ unsigned_float (xMaximum (rect_of (15, 10) (2, 1) (3, 1) (4, 1))) = true
  /\ unsigned_float (yMaximum (rect_of (15, 10) (2, 1) (3, 1) (4, 1))) = true.
Proof.
  apply (box2geometry_unsigned "-1.5 -2 -3 -4").
  vm_compute. reflexivity.
Defined.

(* ------------------------------------------------------------------ *)
(** * Scans, piece by piece *)

Lemma match_at_prefix (r : regex) (prev : option ascii) (rest t : list ascii) :
  match_at r prev rest = Some t -> exists k : nat, t = firstn k rest.
Proof.
  unfold match_at.
  destruct (run r (fun y : pos => Some (snd y)) (prev, rest)) as [rest'|];
    [|discriminate].
  intros H. inversion H. eexists. reflexivity.
Qed.

Lemma firstn_skipn_length (k : nat) (l : list ascii) :
  firstn k l ++ skipn (List.length (firstn k l)) l = l.
Proof.
  revert k. induction l as [|c l IH]; intros k.
  - now destruct k.
  - destruct k as [|k]; [reflexivity|]. simpl. now rewrite IH.
Qed.

(** The pieces of a scan spell the subject: a scan loses no character
    and adds none. *)
Lemma scan_pieces (r : regex) (rest : list ascii) :
  forall (skip : nat) (prev : option ascii),
  pieces_text (scan r skip prev rest) = skipn skip rest.
Proof.
  induction rest as [|c rest IH]; intros skip prev.
  - destruct skip; [|reflexivity]. rewrite scan_nil.
    destruct (match_at r prev []) as [t|] eqn:E; [|reflexivity].
    destruct (match_at_prefix _ _ _ _ E) as [k ->].
    now destruct k.
  - destruct skip as [|n]; [|rewrite scan_skip; apply IH].
    rewrite scan_cons.
    destruct (match_at r prev (c :: rest)) as [t|] eqn:E.
    + destruct (match_at_prefix _ _ _ _ E) as [k ->].
      destruct k as [|k]; simpl.
      * now rewrite IH.
      * rewrite IH. f_equal. apply firstn_skipn_length.
    + simpl. now rewrite IH.
Qed.

Lemma end_prev_cons (c : ascii) (l : list ascii) (prev : option ascii) :
  end_prev (c :: l) prev = end_prev l (Some c).
Proof. reflexivity. Qed.

Lemma end_prev_app (a b : list ascii) (prev : option ascii) :
  end_prev (a ++ b) prev = end_prev b (end_prev a prev).
Proof. unfold end_prev. apply fold_left_app. Qed.

Lemma end_prev_any (l : list ascii) (p q : option ascii) :
  l <> [] -> end_prev l p = end_prev l q.
Proof. destruct l as [|c l]; [contradiction | reflexivity]. Qed.

Lemma scan_skip_app (r : regex) (l rest : list ascii) :
  forall prev : option ascii,
  scan r (List.length l) prev (l ++ rest) = scan r 0 (end_prev l prev) rest.
Proof.
  induction l as [|c l IH]; intros prev; [reflexivity|].
  simpl List.length. simpl app. rewrite scan_skip. apply IH.
Qed.

Lemma number_split_none (bounded : bool) (prev : option ascii)
    (rest : list ascii) :
  starts_with is_digit rest = false -> number_split bounded prev rest = None.
Proof.
  intros H. unfold number_split.
  destruct (bounded && word_opt prev)%bool; [reflexivity|].
  destruct rest as [|c rest]; [reflexivity|].
  simpl in H. simpl. now rewrite H.
Qed.

(** A stretch without digits holds no number. *)
Lemma scan_quiet (bounded : bool) (q rest : list ascii) :
  quiet q = true ->
  forall prev : option ascii,
  scan (number_pattern bounded) 0 prev (q ++ rest) =
  map Lit q ++ scan (number_pattern bounded) 0 (end_prev q prev) rest.
Proof.
  intros H. induction q as [|c q IH]; intros prev; [reflexivity|].
  simpl in H. apply andb_prop in H. destruct H as [Hc Hq].
  simpl app. rewrite scan_cons, match_at_number.
  rewrite number_split_none by (simpl; now destruct (is_digit c)).
  simpl. now rewrite (IH Hq).
Qed.

Lemma split_dot_spec (t : list ascii) :
  t = fst (split_dot t) ++
      match snd (split_dot t) with
      | Some fp => "."%char :: fp
      | None => []
      end.
Proof.
  induction t as [|c t IH]; [reflexivity|]. simpl.
  destruct (is_char "." c) eqn:P.
  - unfold is_char in P. apply Ascii.eqb_eq in P. now subst c.
  - destruct (split_dot t) as [a b]. simpl in *. now rewrite <- IH.
Qed.

Lemma all_digits_spec (ds : list ascii) :
  all_digits ds = true ->
  forallb is_digit ds = true /\ exists c ds', ds = c :: ds'.
Proof.
  unfold all_digits. intros H. apply andb_prop in H. destruct H as [N F].
  split; [exact F|]. destruct ds as [|c ds']; [discriminate N|].
  now exists c, ds'.
Qed.

Lemma after_number_next (rest : list ascii) :
  after_number rest = true ->
  starts_with is_digit rest = false /\ word_opt (next_char rest) = false
  /\ starts_with (is_char ".") rest = false.
Proof.
  destruct rest as [|c rest]; simpl; [tauto|].
  intros H. apply andb_prop in H. destruct H as [W P].
  apply negb_true_iff in W, P. repeat split; try assumption.
  destruct (is_digit c) eqn:D; [|reflexivity].
  rewrite (is_digit_word c D) in W. discriminate.
Qed.

(** A decimal number between a non-word character and the start of a
    separator is matched whole. *)
Lemma number_split_literal (prev : option ascii) (t rest : list ascii) :
  decimal_literal t = true -> word_opt prev = false ->
  after_number rest = true ->
  number_split true prev (t ++ rest) = Some (t, rest).
Proof.
  intros D P A.
  destruct (after_number_next rest A) as (A1 & A2 & A3).
  unfold decimal_literal in D. pose proof (split_dot_spec t) as E.
  destruct (split_dot t) as [ip [fp|]]; simpl in E.
  - apply andb_prop in D. destruct D as [Di Df].
    destruct (all_digits_spec ip Di) as (Fi & c & ds & ->).
    destruct (all_digits_spec fp Df) as (Ff & f & fs & ->).
    unfold number_split. rewrite P. simpl andb. cbv iota.
    rewrite E, <- app_assoc.
    rewrite (span_app is_digit (c :: ds) (("."%char :: f :: fs) ++ rest)
               Fi eq_refl).
    cbv zeta. simpl app.
    change (is_char "." ".") with true. cbv iota.
    change (f :: fs ++ rest) with ((f :: fs) ++ rest).
    rewrite (span_app is_digit (f :: fs) rest Ff A1).
    now rewrite A2.
  - destruct (all_digits_spec ip D) as (Fi & c & ds & ->).
    rewrite app_nil_r in E. subst t.
    unfold number_split. rewrite P. simpl andb. cbv iota.
    rewrite (span_app is_digit (c :: ds) rest Fi A1). cbv zeta.
    rewrite A2. destruct rest as [|x rest]; [reflexivity|].
    simpl in A3. now rewrite A3.
Qed.

Lemma scan_literal (prev : option ascii) (t rest : list ascii) :
  decimal_literal t = true -> word_opt prev = false ->
  after_number rest = true ->
  scan box_pattern 0 prev (t ++ rest) =
  Hit t :: scan box_pattern 0 (end_prev t prev) rest.
Proof.
  intros D P A. change box_pattern with (number_pattern true).
  pose proof (number_split_literal prev t rest D P A) as N.
  destruct (number_split_spec _ _ _ _ _ N) as (_ & _ & T & _).
  destruct t as [|x t]; [discriminate T|].
  simpl app. rewrite scan_cons, match_at_number.
  simpl app in N. rewrite N. simpl option_map. cbv iota.
  f_equal. rewrite end_prev_cons. apply scan_skip_app.
Qed.

Lemma hits_lits (q : list ascii) (ps : list piece) :
  hits (map Lit q ++ ps) = hits ps.
Proof. induction q as [|c q IH]; [reflexivity | exact IH]. Qed.

Lemma list_ascii_of_append (a b : string) :
  list_ascii_of_string (a ++ b)%string =
  list_ascii_of_string a ++ list_ascii_of_string b.
Proof. induction a as [|c a IH]; simpl; [reflexivity | now rewrite IH]. Qed.

Lemma scan_end (bounded : bool) (prev : option ascii) :
  scan (number_pattern bounded) 0 prev [] = [].
Proof.
  rewrite scan_nil, match_at_number.
  now rewrite number_split_none.
Qed.

(** A stretch without digits, a decimal number, and what follows. *)
Lemma scan_part (q t rest : list ascii) (prev : option ascii) :
  quiet q = true -> word_opt (end_prev q prev) = false ->
  decimal_literal t = true -> after_number rest = true ->
  hits (scan box_pattern 0 prev (q ++ t ++ rest)) =
  string_of_list_ascii t ::
  hits (scan box_pattern 0 (end_prev t (end_prev q prev)) rest).
Proof.
  intros Q P D A.
  change box_pattern with (number_pattern true) at 1.
  rewrite (scan_quiet true q (t ++ rest) Q prev), hits_lits.
  change (number_pattern true) with box_pattern.
  now rewrite (scan_literal _ t rest D P A).
Qed.

Lemma separator_spec (s rest : list ascii) (prev : option ascii) :
  separator s = true ->
  quiet s = true /\ after_number (s ++ rest) = true
  /\ word_opt (end_prev s prev) = false.
Proof.
  unfold separator. intros H.
  apply andb_prop in H. destruct H as [H W].
  apply andb_prop in H. destruct H as [H A].
  apply andb_prop in H. destruct H as [N Q].
  destruct s as [|c s]; [discriminate N|].
  repeat split; [exact Q | exact A |].
  apply negb_true_iff in W. exact W.
Qed.

(** Four decimal numbers, with stretches without digits around them. *)
Lemma hits_four_numbers (P A S1 B S2 C S3 D R : list ascii) :
  lead P = true ->
  decimal_literal A = true -> separator S1 = true ->
  decimal_literal B = true -> separator S2 = true ->
  decimal_literal C = true -> separator S3 = true ->
  decimal_literal D = true -> trail R = true ->
  hits (scan box_pattern 0 None
          (P ++ A ++ S1 ++ B ++ S2 ++ C ++ S3 ++ D ++ R)) =
  [string_of_list_ascii A; string_of_list_ascii B;
   string_of_list_ascii C; string_of_list_ascii D].
Proof.
  intros Hpre Ha H1 Hb H2 Hc H3 Hd Hpost.
  unfold lead in Hpre. apply andb_prop in Hpre. destruct Hpre as [Qp Wp].
  apply negb_true_iff in Wp.
  unfold trail in Hpost. apply andb_prop in Hpost.
  destruct Hpost as [Qt At].
  rewrite (scan_part P A _ None Qp Wp Ha)
    by apply (separator_spec S1 _ None H1).
  set (p1 := end_prev A (end_prev P None)).
  destruct (separator_spec S1 (B ++ S2 ++ C ++ S3 ++ D ++ R) p1 H1)
    as (Q1 & _ & W1).
  rewrite (scan_part S1 B _ p1 Q1 W1 Hb)
    by apply (separator_spec S2 _ None H2).
  set (p2 := end_prev B (end_prev S1 p1)).
  destruct (separator_spec S2 (C ++ S3 ++ D ++ R) p2 H2) as (Q2 & _ & W2).
  rewrite (scan_part S2 C _ p2 Q2 W2 Hc)
    by apply (separator_spec S3 _ None H3).
  set (p3 := end_prev C (end_prev S2 p2)).
  destruct (separator_spec S3 (D ++ R) p3 H3) as (Q3 & _ & W3).
  rewrite (scan_part S3 D R p3 Q3 W3 Hd At).
  rewrite <- (app_nil_r R).
  change box_pattern with (number_pattern true).
  now rewrite (scan_quiet true R [] Qt), hits_lits, scan_end.
Qed.

(** X10: a text made of four decimal numbers with separators between
    them, in which no part around the numbers holds a digit and no letter,
    underscore or point touches a number, is read as these four numbers:
    [box2geometry] returns the rectangle of their floats, in their order.
    The form [BOX(x y,x y)] is such a text. *)
Theorem box2geometry_reads_numbers (pre a s1 b s2 c s3 d post : string) :
  lead (list_ascii_of_string pre) = true ->
  decimal_literal (list_ascii_of_string a) = true ->
  separator (list_ascii_of_string s1) = true ->
  decimal_literal (list_ascii_of_string b) = true ->
  separator (list_ascii_of_string s2) = true ->
  decimal_literal (list_ascii_of_string c) = true ->
  separator (list_ascii_of_string s3) = true ->
  decimal_literal (list_ascii_of_string d) = true ->
  trail (list_ascii_of_string post) = true ->
  findall box_pattern (pre ++ a ++ s1 ++ b ++ s2 ++ c ++ s3 ++ d ++ post)%string
    = [a; b; c; d]
  /\ exists x0 y0 x1 y1 : binary64,
       of_string a = Ok x0 /\ of_string b = Ok y0
       /\ of_string c = Ok x1 /\ of_string d = Ok y1
       /\ box2geometry
            (pre ++ a ++ s1 ++ b ++ s2 ++ c ++ s3 ++ d ++ post)%string
          = Ok (mkRect x0 y0 x1 y1).
Proof.
  intros Hpre Ha H1 Hb H2 Hc H3 Hd Hpost.
  assert (T : findall box_pattern
                (pre ++ a ++ s1 ++ b ++ s2 ++ c ++ s3 ++ d ++ post)%string
              = [a; b; c; d]).
  { unfold findall. rewrite !list_ascii_of_append.
    rewrite (hits_four_numbers _ _ _ _ _ _ _ _ _
               Hpre Ha H1 Hb H2 Hc H3 Hd Hpost).
    now rewrite !string_of_list_ascii_of_string. }
  split; [exact T|].
  destruct (of_string_coord a Ha) as [x0 Ea].
  destruct (of_string_coord b Hb) as [y0 Eb].
  destruct (of_string_coord c Hc) as [x1 Ec].
  destruct (of_string_coord d Hd) as [y1 Ed].
  exists x0, y0, x1, y1. repeat split; try assumption.
  unfold box2geometry. rewrite T. simpl. rewrite Ea, Eb, Ec, Ed. reflexivity.
Qed.

Lemma box2geometry_reads_numbers_witness :
  findall box_pattern "BOX(2585300.5 1194400,2607300 1206700.25)" =
    ["2585300.5"; "1194400"; "2607300"; "1206700.25"]
  /\ exists x0 y0 x1 y1 : binary64,
       of_string "2585300.5" = Ok x0 /\ of_string "1194400" = Ok y0
       /\ of_string "2607300" = Ok x1 /\ of_string "1206700.25" = Ok y1
       /\ box2geometry "BOX(2585300.5 1194400,2607300 1206700.25)"
          = Ok (mkRect x0 y0 x1 y1).
Proof.
  apply (box2geometry_reads_numbers "BOX(" "2585300.5" " " "1194400" ","
           "2607300" " " "1206700.25" ")"); vm_compute; reflexivity.
Defined.

(** X11: a text without any digit, the empty text among them, raises
    [InvalidBox] with the text in its message. *)
Theorem box2geometry_without_digits (box : string) :
  quiet (list_ascii_of_string box) = true ->
  box2geometry box = Raise (InvalidBox ("Could not parse: " ++ box)%string).
Proof.
  intros Q. unfold box2geometry, findall.
  rewrite <- (app_nil_r (list_ascii_of_string box)).
  change box_pattern with (number_pattern true).
  now rewrite (scan_quiet true _ [] Q), hits_lits, scan_end.
Qed.

Lemma box2geometry_without_digits_witness :
  box2geometry "" = Raise (InvalidBox "Could not parse: ")
  /\ box2geometry "BOX(EMPTY)" =
     Raise (InvalidBox "Could not parse: BOX(EMPTY)").
Proof.
  split.
  - apply (box2geometry_without_digits ""). reflexivity.
  - apply (box2geometry_without_digits "BOX(EMPTY)"). vm_compute. reflexivity.
Defined.

(* ------------------------------------------------------------------ *)
(** * Camel case *)

Lemma camel_k_spec (c : ascii) (r : list ascii) :
  camel_k (Some c, r) = if camel_stop c r then Some r else None.
Proof.
  unfold camel_k, camel_alternatives, camel_stop, kfin. simpl.
  destruct (is_lower c), (is_upper c); simpl;
    destruct r as [|a [|b r']]; simpl; try reflexivity;
    try destruct (is_upper a); simpl; try reflexivity;
    try destruct (is_lower b); simpl; try reflexivity;
    try destruct (N.eqb (code a) 10); reflexivity.
Qed.

Lemma run_camelcase (prev : option ascii) (rest : list ascii) :
  run camelcase_pattern kfin (prev, rest) = lazy_plus is_dot camel_k rest.
Proof. reflexivity. Qed.

(** On a text without line feed the pattern matches at every position
    but the end, and what it matches is not empty. *)
Lemma camel_match (rest : list ascii) :
  rest <> [] -> forallb is_dot rest = true ->
  exists t out : list ascii,
    lazy_plus is_dot camel_k rest = Some out /\ t <> [] /\ rest = t ++ out.
Proof.
  induction rest as [|c r IH]; intros N D; [contradiction|].
  simpl in D. apply andb_prop in D. destruct D as [Dc Dr].
  simpl. rewrite Dc, camel_k_spec.
  destruct (camel_stop c r) eqn:S.
  - exists [c], r. repeat split. discriminate.
  - destruct r as [|d r'].
    + unfold camel_stop in S. simpl in S. rewrite orb_true_r in S.
      discriminate S.
    + destruct (IH ltac:(discriminate) Dr) as (t & out & E & _ & R).
      exists (c :: t), out. rewrite E, R. repeat split. discriminate.
Qed.

Lemma match_at_camel (prev : option ascii) (rest : list ascii) :
  rest <> [] -> forallb is_dot rest = true ->
  exists t : list ascii,
    match_at camelcase_pattern prev rest = Some t /\ t <> [].
Proof.
  intros N D. destruct (camel_match rest N D) as (t & out & E & T & R).
  exists t. split; [|exact T]. unfold match_at.
  change (run camelcase_pattern (fun y : pos => Some (snd y)) (prev, rest))
    with (lazy_plus is_dot camel_k rest).
  rewrite E, R. now rewrite firstn_front.
Qed.

Lemma scan_camel_end (prev : option ascii) :
  scan camelcase_pattern 0 prev [] = [].
Proof. reflexivity. Qed.

Lemma scan_camel_hits (rest : list ascii) :
  forallb is_dot rest = true ->
  forall (skip : nat) (prev : option ascii),
  Forall full_hit (scan camelcase_pattern skip prev rest).
Proof.
  induction rest as [|c rest IH]; intros D skip prev.
  - destruct skip; constructor.
  - pose proof D as D'. simpl in D'. apply andb_prop in D'.
    destruct D' as [_ Dr].
    destruct skip as [|n]; [|rewrite scan_skip; now apply IH].
    rewrite scan_cons.
    destruct (match_at_camel prev (c :: rest) ltac:(discriminate) D)
      as (t & -> & T).
    destruct t as [|x t]; [contradiction|].
    constructor; [exists (x :: t); now split | now apply IH].
Qed.

Lemma string_of_app (a b : list ascii) :
  string_of_list_ascii (a ++ b) =
  (string_of_list_ascii a ++ string_of_list_ascii b)%string.
Proof. induction a as [|c a IH]; simpl; [reflexivity | now rewrite IH]. Qed.

Lemma string_app_nil (a : string) : (a ++ "")%string = a.
Proof. induction a as [|c a IH]; simpl; [reflexivity | now rewrite IH]. Qed.

Lemma concat_empty_cons (x : string) (xs : list string) :
  String.concat "" (x :: xs) = (x ++ String.concat "" xs)%string.
Proof.
  destruct xs as [|y xs]; simpl; [now rewrite string_app_nil | reflexivity].
Qed.

Lemma full_hits_text (ps : list piece) :
  Forall full_hit ps ->
  String.concat "" (hits ps) = string_of_list_ascii (pieces_text ps)
  /\ Forall (fun s => s <> "") (hits ps).
Proof.
  induction 1 as [|p ps (t & -> & T) _ (IH1 & IH2)]; [split; constructor|].
  change (hits (Hit t :: ps)) with (string_of_list_ascii t :: hits ps).
  rewrite concat_empty_cons, IH1. simpl pieces_text. rewrite string_of_app.
  split; [reflexivity|]. constructor; [|exact IH2].
  destruct t as [|x t]; [contradiction | discriminate].
Qed.

(** The pieces of a text without line feed: not empty, and the text
    when put together again. *)
Lemma camel_pieces (s : string) :
  no_line_feed s = true ->
  String.concat "" (findall camelcase_pattern s) = s
  /\ Forall (fun p => p <> "") (findall camelcase_pattern s).
Proof.
  intros D. unfold findall.
  destruct (full_hits_text _ (scan_camel_hits _ D 0%nat None)) as (E & F).
  split; [|exact F].
  rewrite E, scan_pieces. simpl skipn.
  apply string_of_list_ascii_of_string.
Qed.

(** X12: on a text without line feed, [break_camelcase] only puts
    blanks in: its result is the pieces of the text joined by blanks,
    where the pieces are not empty and make up the text, in order, when
    joined without the blanks. *)
Theorem break_camelcase_inserts_blanks (s : string) :
  no_line_feed s = true ->
  exists pieces : list string,
    break_camelcase s = String.concat " " pieces
    /\ String.concat "" pieces = s
    /\ Forall (fun p => p <> "") pieces.
Proof.
  intros D. exists (findall camelcase_pattern s).
  split; [reflexivity|]. now apply camel_pieces.
Qed.

Lemma break_camelcase_inserts_blanks_witness :
  exists pieces : list string,
    break_camelcase "HTTPServerError" = String.concat " " pieces
    /\ String.concat "" pieces = "HTTPServerError"
    /\ Forall (fun p => p <> "") pieces.
Proof.
  apply (break_camelcase_inserts_blanks "HTTPServerError").
  vm_compute. reflexivity.
Defined.

Lemma camel_stop_plain (c : ascii) (r : list ascii) :
  forallb is_dot r = true ->
  forallb (fun x => negb (is_upper x)) r = true ->
  camel_stop c r = match r with [] => true | _ :: _ => false end.
Proof.
  intros D U. unfold camel_stop. destruct r as [|a r]; simpl.
  - now rewrite orb_true_r.
  - simpl in D, U. apply andb_prop in D, U.
    destruct D as [Da _], U as [Ua _]. apply negb_true_iff in Ua.
    rewrite Ua, andb_false_r. simpl.
    destruct r; simpl; rewrite andb_false_r; [|reflexivity].
    unfold is_dot in Da. now apply negb_true_iff in Da.
Qed.

Lemma camel_whole (rest : list ascii) :
  rest <> [] -> forallb is_dot rest = true ->
  forallb (fun x => negb (is_upper x)) rest = true ->
  lazy_plus is_dot camel_k rest = Some [].
Proof.
  induction rest as [|c r IH]; intros N D U; [contradiction|].
  simpl in D, U. apply andb_prop in D, U.
  destruct D as [Dc Dr], U as [_ Ur].
  simpl. rewrite Dc, camel_k_spec, (camel_stop_plain c r Dr Ur).
  destruct r as [|d r]; [reflexivity|].
  now apply IH.
Qed.

(** X13: a text without capital letter and without line feed comes back
    from [break_camelcase] as it is. *)
Theorem break_camelcase_without_capitals (s : string) :
  no_line_feed s = true -> no_capital s = true -> break_camelcase s = s.
Proof.
  unfold no_line_feed, no_capital, break_camelcase, findall.
  intros D U.
  rewrite <- (string_of_list_ascii_of_string s) at 2.
  destruct (list_ascii_of_string s) as [|c r] eqn:E; [reflexivity|].
  rewrite scan_cons. unfold match_at.
  change (run camelcase_pattern (fun y : pos => Some (snd y)) (None, c :: r))
    with (lazy_plus is_dot camel_k (c :: r)).
  rewrite (camel_whole (c :: r) ltac:(discriminate) D U).
  simpl List.length. rewrite Nat.sub_0_r.
  change (S (List.length r)) with (List.length (c :: r)).
  rewrite firstn_all.
  pose proof (scan_skip_app camelcase_pattern r [] (Some c)) as K.
  rewrite app_nil_r in K. rewrite K, scan_camel_end.
  reflexivity.
Qed.

Lemma break_camelcase_without_capitals_witness :
  break_camelcase "municipal boundaries 25" = "municipal boundaries 25".
Proof.
  apply (break_camelcase_without_capitals "municipal boundaries 25");
    vm_compute; reflexivity.
Defined.

(* ------------------------------------------------------------------ *)
(** * What a beautified label is made of *)

Lemma concat_chars (sep : string) (l : list string) (c : ascii) :
  In c (list_ascii_of_string (String.concat sep l)) ->
  In c (list_ascii_of_string sep)
  \/ exists t : string, In t l /\ In c (list_ascii_of_string t).
Proof.
  induction l as [|x xs IH]; [intros []|].
  destruct xs as [|y xs].
  - simpl. intros H. right. exists x. now split; [left|].
  - change (String.concat sep (x :: y :: xs))
      with (x ++ sep ++ String.concat sep (y :: xs))%string.
    rewrite !list_ascii_of_append. intros H.
    apply in_app_or in H. destruct H as [H|H].
    + right. exists x. now split; [left|].
    + apply in_app_or in H. destruct H as [H|H]; [now left|].
      destruct (IH H) as [S|(t & T & C)]; [now left|].
      right. exists t. now split; [right|].
Qed.

Lemma hits_incl (ps : list piece) (t : string) (c : ascii) :
  In t (hits ps) -> In c (list_ascii_of_string t) -> In c (pieces_text ps).
Proof.
  induction ps as [|[x|t0] ps IH]; [intros []| |]; simpl.
  - intros H C. right. now apply IH.
  - intros [<-|H] C; apply in_or_app.
    + left. now rewrite list_ascii_of_string_of_list_ascii in C.
    + right. now apply IH.
Qed.

(** The characters of a match are characters of the subject. *)
Lemma findall_chars (r : regex) (s t : string) (c : ascii) :
  In t (findall r s) -> In c (list_ascii_of_string t) ->
  In c (list_ascii_of_string s).
Proof.
  unfold findall. intros H C.
  pose proof (hits_incl _ t c H C) as I.
  now rewrite scan_pieces in I.
Qed.

Lemma replace_underscore_chars (g : string) :
  list_ascii_of_string (replace_char "_" " " g) =
  map blank_underscore (list_ascii_of_string g).
Proof. apply replace_char_map. Qed.

Lemma blank_underscore_classes (c : ascii) :
  blank_underscore c <> "_"%char
  /\ is_digit (blank_underscore c) = is_digit c
  /\ (is_dot c = true -> is_dot (blank_underscore c) = true).
Proof.
  unfold blank_underscore.
  destruct (Ascii.eqb_spec c "_"%char) as [->|N].
  - repeat split; try reflexivity. discriminate.
  - tauto.
Qed.

(** X14: with the setting [replace_underscore] on, no underscore is
    left in a beautified label, whatever the other two settings. *)
Theorem beautify_group_no_underscore (s : Settings) (group : string) :
  replace_underscore s = true ->
  ~ In "_"%char (list_ascii_of_string (beautify_group s group)).
Proof.
  intros R. unfold beautify_group. rewrite R.
  set (g1 := if remove_leading_digits s
             then Re.sub leading_digits_pattern "" group else group).
  assert (G : ~ In "_"%char (list_ascii_of_string (replace_char "_" " " g1))).
  { rewrite replace_underscore_chars. intros H.
    apply in_map_iff in H. destruct H as (c & E & _).
    now destruct (blank_underscore_classes c) as (N & _). }
  destruct (setting_break_camelcase s); [|exact G].
  intros H. unfold break_camelcase in H.
  apply concat_chars in H. destruct H as [H|(t & T & C)].
  - simpl in H. destruct H as [H|[]]. discriminate H.
  - apply G. now apply (findall_chars camelcase_pattern _ t).
Qed.

Lemma beautify_group_no_underscore_witness :
  ~ In "_"%char
      (list_ascii_of_string (beautify_group sample_settings "12_CamelCase_Word")).
Proof.
  apply (beautify_group_no_underscore sample_settings "12_CamelCase_Word").
  reflexivity.
Defined.

Lemma starts_with_concat (p : ascii -> bool) (pieces : list string) :
  Forall (fun x => x <> "") pieces ->
  starts_with p (list_ascii_of_string (String.concat " " pieces)) =
  starts_with p (list_ascii_of_string (String.concat "" pieces)).
Proof.
  intros F. destruct pieces as [|x xs]; [reflexivity|].
  inversion F as [|? ? Hx _]; subst.
  destruct x as [|c x]; [contradiction|].
  rewrite concat_empty_cons.
  destruct xs as [|y xs]; reflexivity.
Qed.

Lemma drop_leading_digits_chars (g : string) :
  starts_with is_digit (list_ascii_of_string (drop_leading_digits g)) = false
  /\ (no_line_feed g = true -> no_line_feed (drop_leading_digits g) = true).
Proof.
  unfold drop_leading_digits, no_line_feed.
  rewrite list_ascii_of_string_of_list_ascii.
  destruct (span_spec is_digit (list_ascii_of_string g)) as (E & _ & S).
  split; [exact S|]. intros D. rewrite E in D.
  now apply forallb_app_r in D.
Qed.

(** X15: with the setting [remove_leading_digits] on, a beautified label
    of a text without line feed does not begin with a digit, whatever the
    other two settings. *)
Theorem beautify_group_no_leading_digit (s : Settings) (group : string) :
  remove_leading_digits s = true -> no_line_feed group = true ->
  starts_with is_digit (list_ascii_of_string (beautify_group s group)) = false.
Proof.
  intros R D. unfold beautify_group. rewrite R, sub_leading_digits.
  destruct (drop_leading_digits_chars group) as (S1 & D1).
  specialize (D1 D).
  set (g1 := drop_leading_digits group) in *.
  set (g2 := if replace_underscore s then replace_char "_" " " g1 else g1).
  assert (G : starts_with is_digit (list_ascii_of_string g2) = false
              /\ no_line_feed g2 = true).
  { unfold g2. destruct (replace_underscore s); [|now split].
    unfold no_line_feed in *. rewrite replace_underscore_chars. split.
    - destruct (list_ascii_of_string g1) as [|c l]; [reflexivity|].
      simpl in *. now destruct (blank_underscore_classes c) as (_ & -> & _).
    - rewrite forallb_forall in *. intros x Hx.
      apply in_map_iff in Hx. destruct Hx as (c & <- & Hc).
      now apply blank_underscore_classes, D1. }
  destruct G as (S2 & D2).
  destruct (setting_break_camelcase s); [|exact S2].
  unfold break_camelcase.
  destruct (camel_pieces g2 D2) as (E & F).
  now rewrite (starts_with_concat is_digit _ F), E.
Qed.

Lemma beautify_group_no_leading_digit_witness :
  starts_with is_digit
    (list_ascii_of_string (beautify_group sample_settings "12_CamelCaseWord"))
  = false.
Proof.
  apply (beautify_group_no_leading_digit sample_settings "12_CamelCaseWord");
    reflexivity.
Defined.

(* ------------------------------------------------------------------ *)
(** * Searches that succeed, and unknown categories *)

Section Success.

Variable recode : string -> string.
Variable tr : string -> string.
Variable DEBUG : bool.
Variable settings : Settings.

(** X16: a search text of two characters or more whose request is
    answered with status 200 and a batch of well-formed elements emits
    one result for each element, in the order of the batch, and ends
    without an exception. *)
Theorem fetchResults_success (net : request -> outcome) (search : string)
    (locs : list attrs) (rs : list QgsLocatorResult) (w : state) :
  (2 <= String.length search)%nat ->
  net (mkRequest (search_url recode settings (lang w) search) search_headers) =
    Response 200 locs ->
  Forall2 (fun loc r => locator_result tr loc = Ok r) locs rs ->
  fst (fetchResults recode tr DEBUG settings net search w) = Ok tt
  /\ emitted (snd (fetchResults recode tr DEBUG settings net search w)) =
     emitted w ++ rs.
Proof.
  intros H N F. unfold fetchResults.
  destruct (fetch_begin_shape recode settings DEBUG search w) as (E & _ & _ & L).
  destruct (fetch_begin recode DEBUG settings search w) as [o w']. simpl in E, L.
  assert (T : (String.length search <? 2)%nat = false)
    by (apply Nat.ltb_ge; lia).
  destruct (L T) as [id ->]. rewrite N.
  unfold fetch_end, handle_response. simpl negb. cbv iota.
  destruct (handle_results_all tr DEBUG locs rs (finished id w') F)
    as (A & B).
  rewrite A, B. simpl. now rewrite E.
Qed.

(** X17: an element whose origin is none of the seven keys ends the
    batch, whether its box text parses or not and whether [DEBUG] is set
    or not: with [NameError] when [rank2priority] returns for its rank,
    as it does for every rank below [2^1000] in absolute value, and with
    the error of [rank2priority], which is evaluated first, when it
    raises; the results of the elements in front of it have been
    emitted. *)
Theorem handle_response_stops_at_unknown_origin (pre post : list attrs)
    (loc : attrs) (rs : list QgsLocatorResult) (w : state) :
  Forall2 (fun l r => locator_result tr l = Ok r) pre rs ->
  ~ In (origin loc) known_origins ->
  fst (handle_response tr DEBUG 200 (pre ++ loc :: post) w) =
    match rank2priority (rank loc) with
    | Ok _ =>
        Raise (NameError
                 ("Could not find group " ++ origin loc
                  ++ " in dictionary")%string)
    | Raise e => Raise e
    end
  /\ emitted (snd (handle_response tr DEBUG 200 (pre ++ loc :: post) w)) =
     emitted w ++ rs
  /\ (Z.abs (rank loc) < 2 ^ 1000 ->
      fst (handle_response tr DEBUG 200 (pre ++ loc :: post) w) =
        Raise (NameError
                 ("Could not find group " ++ origin loc
                  ++ " in dictionary")%string)).
Proof.
  intros Hpre Ho. unfold handle_response. simpl negb. cbv iota.
  assert (L : locator_result tr loc =
              match rank2priority (rank loc) with
              | Ok _ =>
                  Raise (NameError
                           ("Could not find group " ++ origin loc
                            ++ " in dictionary")%string)
              | Raise e => Raise e
              end).
  { unfold locator_result, bind.
    destruct (rank2priority (rank loc)); [|reflexivity].
    now rewrite (translate_group_unknown tr _ Ho). }
  assert (S : exists e, locator_result tr loc = Raise e).
  { rewrite L. destruct (rank2priority (rank loc)); eexists; reflexivity. }
  destruct S as [e He].
  destruct (handle_results_stop tr DEBUG pre post loc rs e w Hpre He)
    as (A & B).
  rewrite A. rewrite L in He. clear L A.
  destruct (rank2priority (rank loc)) as [p|e'] eqn:P;
    inversion He; subst e.
  - split; [reflexivity|]. split; [exact B|]. reflexivity.
  - split; [reflexivity|]. split; [exact B|].
    intros R. apply rank2priority_raises in P. lia.
Qed.

End Success.

Lemma fetchResults_success_witness :
  fst (fetchResults percent_decode (fun s => s) true sample_settings
         (fun _ => Response 200 [bern; basel]) "Be"
         (init sample_settings "German")) = Ok tt
  /\ emitted (snd (fetchResults percent_decode (fun s => s) true sample_settings
                     (fun _ => Response 200 [bern; basel]) "Be"
                     (init sample_settings "German")))
     = emitted (init sample_settings "German") ++ [bern_result; basel_result].
Proof.
  apply (fetchResults_success percent_decode (fun s => s) true sample_settings
           (fun _ => Response 200 [bern; basel]) "Be" [bern; basel]
           [bern_result; basel_result] (init sample_settings "German")).
  - simpl. lia.
  - reflexivity.
  - repeat constructor; vm_compute; reflexivity.
Defined.

Lemma handle_response_stops_at_unknown_origin_witness :
  fst (handle_response (fun s => s) false 200
         ([bern] ++ mkAttrs "Lac" "lac" 2 "lake" "no box" :: [basel])
         (init sample_settings "German")) =
    Raise (NameError "Could not find group lake in dictionary")
  /\ emitted (snd (handle_response (fun s => s) false 200
                     ([bern] ++ mkAttrs "Lac" "lac" 2 "lake" "no box" :: [basel])
                     (init sample_settings "German")))
     = emitted (init sample_settings "German") ++ [bern_result]
  /\ fst (handle_response (fun s => s) false 200
            ([bern] ++ mkAttrs "Lac" "lac" (10 ^ 400) "lake" "no box"
                       :: [basel])
            (init sample_settings "German")) =
       Raise OverflowError.
Proof.
  assert (F : Forall2 (fun l r => locator_result (fun s => s) l = Ok r)
                [bern] [bern_result])
    by (constructor; [vm_compute; reflexivity | constructor]).
  assert (N : forall rank,
              ~ In (origin (mkAttrs "Lac" "lac" rank "lake" "no box"))
                known_origins)
    by (intros rank; simpl; intuition discriminate).
  destruct (handle_response_stops_at_unknown_origin (fun s => s) false
              [bern] [basel] (mkAttrs "Lac" "lac" 2 "lake" "no box")
              [bern_result] (init sample_settings "German") F (N 2))
    as (_ & B & C).
  destruct (handle_response_stops_at_unknown_origin (fun s => s) false
              [bern] [basel] (mkAttrs "Lac" "lac" (10 ^ 400) "lake" "no box")
              [bern_result] (init sample_settings "German") F
              (N (10 ^ 400)))
    as (A' & _ & _).
  split; [apply C; vm_compute; reflexivity|].
  split; [exact B|].
  rewrite A'. vm_compute. reflexivity.
Defined.

(* ------------------------------------------------------------------ *)
(** * The pattern with and without word boundaries *)



















(* ------------------------------------------------------------------ *)
(** * The rectangle of a box text *)

(** With the numbers the code takes from a text: four of them give the
    rectangle of their floats, any other count raises [InvalidBox]. *)
Lemma box2geometry_coords (box : string) :
  (List.length (findall box_pattern box) = 4%nat ->
   exists a b c d x0 y0 x1 y1,
     findall box_pattern box = [a; b; c; d]
     /\ of_string a = Ok x0 /\ of_string b = Ok y0
     /\ of_string c = Ok x1 /\ of_string d = Ok y1
     /\ box2geometry box = Ok (mkRect x0 y0 x1 y1))
  /\ (List.length (findall box_pattern box) <> 4%nat ->
      box2geometry box = Raise (InvalidBox ("Could not parse: " ++ box)%string)).
Proof.
  split.
  - intros L. pose proof (coords_decimal box) as F. unfold box2geometry.
    destruct (findall box_pattern box) as [|a [|b [|c [|d [|e l]]]]];
      try discriminate L.
    inversion F as [|? ? Ha F1]; subst. inversion F1 as [|? ? Hb F2]; subst.
    inversion F2 as [|? ? Hc F3]; subst. inversion F3 as [|? ? Hd _]; subst.
    destruct (of_string_coord a Ha) as [x0 Ea].
    destruct (of_string_coord b Hb) as [y0 Eb].
    destruct (of_string_coord c Hc) as [x1 Ec].
    destruct (of_string_coord d Hd) as [y1 Ed].
    exists a, b, c, d, x0, y0, x1, y1. simpl.
    rewrite Ea, Eb, Ec, Ed. simpl. tauto.
  - intros L. unfold box2geometry. apply Nat.eqb_neq in L. now rewrite L.
Qed.




(* ------------------------------------------------------------------ *)
(** * Signs in a box text *)

(** A separator that ends with a character which is neither a digit, a
    word character nor a point, such as a minus sign or a blank. *)
Lemma separator_end (s : list ascii) (x : ascii) :
  trail s = true -> is_word x = false -> is_char "." x = false ->
  separator (s ++ [x]) = true.
Proof.
  unfold trail, separator, quiet. intros H W P.
  apply andb_prop in H. destruct H as [Q A].
  assert (D : is_digit x = false).
  { destruct (is_digit x) eqn:E; [|reflexivity].
    now rewrite (is_digit_word x E) in W. }
  rewrite forallb_app, Q, end_prev_app. simpl. rewrite D, W. simpl.
  rewrite !andb_true_r.
  destruct s as [|c s]; simpl; [now rewrite W, P | exact A].
Qed.

Lemma lead_end (p : list ascii) (x : ascii) :
  quiet p = true -> is_word x = false -> lead (p ++ [x]) = true.
Proof.
  unfold lead, quiet. intros Q W.
  assert (D : is_digit x = false).
  { destruct (is_digit x) eqn:E; [|reflexivity].
    now rewrite (is_digit_word x E) in W. }
  rewrite forallb_app, Q, end_prev_app. simpl. now rewrite D, W.
Qed.

(** C10: signs are dropped without an error.  A minus sign is never part
    of a number taken from a box text, and [box2geometry] returns for a
    text what it returns for the text with every minus sign turned into a
    blank.  Four decimal numbers, each written with a minus sign in front
    and with no letter, underscore or point touching them, give the
    rectangle of the four numbers without their signs: no coordinate is
    negative, and no [InvalidBox] is raised.  The text ["-1.5 -2 -3 -4"]
    gives the rectangle (1.5, 2, 3, 4). *)
Theorem minus_signs_dropped (box pre a s1 b s2 c s3 d post : string) :
  (forall t, In t (findall box_pattern box) ->
             ~ In "-"%char (list_ascii_of_string t))
  /\ findall box_pattern box = findall box_pattern (replace_char "-" " " box)
  /\ box2geometry box =
       match box2geometry (replace_char "-" " " box) with
       | Ok rect => Ok rect
       | Raise _ => Raise (InvalidBox ("Could not parse: " ++ box)%string)
       end
  /\ (quiet (list_ascii_of_string pre) = true ->
      decimal_literal (list_ascii_of_string a) = true ->
      trail (list_ascii_of_string s1) = true ->
      decimal_literal (list_ascii_of_string b) = true ->
      trail (list_ascii_of_string s2) = true ->
      decimal_literal (list_ascii_of_string c) = true ->
      trail (list_ascii_of_string s3) = true ->
      decimal_literal (list_ascii_of_string d) = true ->
      trail (list_ascii_of_string post) = true ->
      exists x0 y0 x1 y1 : binary64,
        of_string a = Ok x0 /\ of_string b = Ok y0
        /\ of_string c = Ok x1 /\ of_string d = Ok y1
        /\ unsigned_float x0 = true /\ unsigned_float y0 = true
        /\ unsigned_float x1 = true /\ unsigned_float y1 = true
        /\ box2geometry
             (pre ++ "-" ++ a ++ s1 ++ "-" ++ b ++ s2 ++ "-" ++ c
              ++ s3 ++ "-" ++ d ++ post)%string
           = Ok (mkRect x0 y0 x1 y1))
  /\ box2geometry "-1.5 -2 -3 -4" = Ok (rect_of (15, 10) (2, 1) (3, 1) (4, 1))
  /\ represents (of_fraction 15 10) (3 # 2) = true
  /\ represents (of_fraction 2 1) 2 = true
  /\ represents (of_fraction 3 1) 3 = true
  /\ represents (of_fraction 4 1) 4 = true.
Proof.
  assert (T : findall box_pattern box =
              findall box_pattern (replace_char "-" " " box)).
  { unfold findall. rewrite replace_char_map.
    change (fun c : ascii => if (c =? "-")%char then " "%char else c)
      with unsign.
    symmetry. apply (scan_unsign true _ 0%nat None). }
  split; [|split; [exact T|split; [|split]]].
  - intros t Ht Hm.
    pose proof (coords_decimal box) as F. rewrite Forall_forall in F.
    pose proof (split_dot_chars _ (F t Ht)) as C.
    rewrite forallb_forall in C. specialize (C _ Hm). discriminate C.
  - destruct (box2geometry_coords box) as [Four Other].
    destruct (box2geometry_coords (replace_char "-" " " box))
      as [Four' Other'].
    rewrite <- T in Four', Other'.
    destruct (Nat.eq_dec (List.length (findall box_pattern box)) 4)
      as [L|L].
    + destruct (Four L) as (a0 & b0 & c0 & d0 & x0 & y0 & x1 & y1 & E
                            & Ea & Eb & Ec & Ed & R).
      destruct (Four' L) as (a' & b' & c' & d' & x0' & y0' & x1' & y1' & E'
                             & Ea' & Eb' & Ec' & Ed' & R').
      rewrite R, R'. rewrite E in E'. inversion E'; subst a' b' c' d'.
      congruence.
    + now rewrite (Other L), (Other' L).
  - intros Hpre Ha H1 Hb H2 Hc H3 Hd Hpost.
    assert (M : is_word "-" = false /\ is_char "." "-" = false)
      by (split; reflexivity).
    destruct M as [Mw Mp].
    assert (N : findall box_pattern
                  (pre ++ "-" ++ a ++ s1 ++ "-" ++ b ++ s2 ++ "-" ++ c
                   ++ s3 ++ "-" ++ d ++ post)%string = [a; b; c; d]).
    { unfold findall. rewrite !list_ascii_of_append.
      change (list_ascii_of_string "-") with ["-"%char].
      rewrite (app_assoc (list_ascii_of_string pre) ["-"%char]).
      rewrite (app_assoc (list_ascii_of_string s1) ["-"%char]).
      rewrite (app_assoc (list_ascii_of_string s2) ["-"%char]).
      rewrite (app_assoc (list_ascii_of_string s3) ["-"%char]).
      rewrite (hits_four_numbers _ _ _ _ _ _ _ _ _
                 (lead_end _ _ Hpre Mw) Ha (separator_end _ _ H1 Mw Mp)
                 Hb (separator_end _ _ H2 Mw Mp) Hc
                 (separator_end _ _ H3 Mw Mp) Hd Hpost).
      now rewrite !string_of_list_ascii_of_string. }
    destruct (of_string_coord a Ha) as [x0 Ea].
    destruct (of_string_coord b Hb) as [y0 Eb].
    destruct (of_string_coord c Hc) as [x1 Ec].
    destruct (of_string_coord d Hd) as [y1 Ed].
    exists x0, y0, x1, y1.
    repeat split; try assumption;
      try (eapply of_string_unsigned; eassumption).
    unfold box2geometry. rewrite N. simpl. rewrite Ea, Eb, Ec, Ed.
    reflexivity.
  - repeat split; vm_compute; reflexivity.
Qed.

Lemma minus_signs_dropped_witness :
  exists x0 y0 x1 y1 : binary64,
    of_string "2585300.5" = Ok x0 /\ of_string "1194400" = Ok y0
    /\ of_string "2607300" = Ok x1 /\ of_string "1206700.25" = Ok y1
    /\ unsigned_float x0 = true /\ unsigned_float y0 = true
    /\ unsigned_float x1 = true /\ unsigned_float y1 = true
    /\ box2geometry "BOX(-2585300.5 -1194400,-2607300 -1206700.25)"
       = Ok (mkRect x0 y0 x1 y1).
Proof.
  apply (proj1 (proj2 (proj2 (proj2
           (minus_signs_dropped "" "BOX(" "2585300.5" " " "1194400" ","
              "2607300" " " "1206700.25" ")")))));
    vm_compute; reflexivity.
Defined.
